(** * The validity state of a form control (src/polyfills/validityState.js)

    A shallow embedding of the validity-state polyfill: the ten facet
    checkers of [validity_state_checkers], the aggregate [valid] getter with
    its writes to the class list and the [aria-invalid] attribute, and the
    [ValidityState] constructor with its per-element cache.

    The module imports its constraint predicates, its localisation helpers,
    the validator registry and the wrapper lookup from other files; they are
    the fields of [Collaborators] below and every statement is made for an
    arbitrary choice of them. *)

From Stdlib Require Import ZArith Ascii String.
From stdpp Require Import gmap strings list fin_maps pretty.

Open Scope string_scope.

(** ** Data model *)

(** Values handed to [sprintf] as message arguments: the result of
    [getAttribute] (a string or [null]), of [string_to_number], of
    [string_to_date], of [unicode_string_length], and the two entries of
    [get_next_valid]. Numbers that are lengths are integers; the numeric
    helpers are free to return any value. *)
Inductive js_value :=
| JsNull
| JsString (s : string)
| JsNumber (n : Z)
| JsDate (ms : Z).

(** A form control as the checkers read it: its object identity (the key of
    every WeakMap), [element.value], [element.title], the attributes seen by
    [getAttribute]/[hasAttribute], and whether it is an HTMLSelectElement.
    The class list and the [aria-invalid] attribute, which only the [valid]
    getter writes and nothing in this file reads, are kept in the [World]. *)
Record Element := {
  identity : nat;
  value : string;
  title : string;
  attributes : gmap string string;
  is_HTMLSelectElement : bool;
}.

Definition getAttribute (element : Element) (name : string) : option string :=
  attributes element !! name.

Definition hasAttribute (element : Element) (name : string) : bool :=
  bool_decide (is_Some (attributes element !! name)).

(** [getAttribute] yields [null] for an absent attribute. *)
Definition attr_value (a : option string) : js_value :=
  match a with
  | Some s => JsString s
  | None => JsNull
  end.

(** An entry of the message store: a String object, possibly carrying the
    [is_custom] property. *)
Record Message := {
  text : string;
  is_custom : bool;
}.

(** A ValidityState object: [this.element] is unset until the constructor
    assigns it. *)
Record Instance := {
  element : option Element;
}.

(** Everything the module mutates. [messages] is the message store,
    [classList] and [aria_invalid] the presentation state of each element,
    [cache] the WeakMap [ValidityState.cache] (element identity to instance
    reference), [instances] the ValidityState objects allocated so far and
    [next_instance] the next fresh object reference. *)
Record World := {
  messages : gmap nat Message;
  classList : gmap nat (list string);
  aria_invalid : gmap nat string;
  cache : gmap nat nat;
  instances : gmap nat Instance;
  next_instance : nat;
}.

Definition empty_world : World :=
  {| messages := ∅; classList := ∅; aria_invalid := ∅;
     cache := ∅; instances := ∅; next_instance := 0 |}.

(** ** Stateful computations *)

Definition M (A : Type) : Type := World -> A * World.

Definition ret {A} (a : A) : M A := fun w => (a, w).

Definition bind {A B} (m : M A) (k : A -> M B) : M B :=
  fun w => let (a, w') := m w in k a w'.

Notation "'let!' x ':=' m 'in' k" := (bind m (fun x => k))
  (at level 10, x name, m at level 100, k at level 200).
Notation "m '>>' k" := (bind m (fun _ => k))
  (at level 100, k at level 200, right associativity).

Definition when (b : bool) (m : M unit) : M unit :=
  if b then m else ret tt.

(** *** The message store (components/message_store) *)

(** Modelled from the spec: the message store is imported from
    components/message_store. It is a per-control slot holding the current
    validation message; a plain string is stored without the custom marker. *)
Definition message_store_set (el : Element) (msg : string) : M unit :=
  fun w =>
    (tt, {| messages := <[identity el := {| text := msg; is_custom := false |}]> (messages w);
            classList := classList w; aria_invalid := aria_invalid w;
            cache := cache w; instances := instances w;
            next_instance := next_instance w |}).

(** Modelled from the spec: reading the slot of a control without a message
    yields the empty message. *)
Definition message_store_get (el : Element) : M Message :=
  fun w =>
    (default {| text := ""; is_custom := false |} (messages w !! identity el), w).

(** Modelled from the spec: clearing the slot of a control. *)
Definition message_store_delete (el : Element) : M unit :=
  fun w =>
    (tt, {| messages := delete (identity el) (messages w);
            classList := classList w; aria_invalid := aria_invalid w;
            cache := cache w; instances := instances w;
            next_instance := next_instance w |}).

(** *** The presentation state of an element *)

Definition tokens (el : Element) (w : World) : list string :=
  default [] (classList w !! identity el).

(** [element.classList.add(token)]: appended unless already present. *)
Definition classList_add (el : Element) (token : string) : M unit :=
  fun w =>
    let old := tokens el w in
    let new := if bool_decide (token ∈ old) then old else (old ++ [token])%list in
    (tt, {| messages := messages w;
            classList := <[identity el := new]> (classList w);
            aria_invalid := aria_invalid w;
            cache := cache w; instances := instances w;
            next_instance := next_instance w |}).

(** [element.classList.remove(token)]. *)
Definition classList_remove (el : Element) (token : string) : M unit :=
  fun w =>
    let new := filter (fun t => t ≠ token) (tokens el w) in
    (tt, {| messages := messages w;
            classList := <[identity el := new]> (classList w);
            aria_invalid := aria_invalid w;
            cache := cache w; instances := instances w;
            next_instance := next_instance w |}).

(** [element.setAttribute('aria-invalid', v)]. *)
Definition set_aria_invalid (el : Element) (v : string) : M unit :=
  fun w =>
    (tt, {| messages := messages w; classList := classList w;
            aria_invalid := <[identity el := v]> (aria_invalid w);
            cache := cache w; instances := instances w;
            next_instance := next_instance w |}).

(** ** The imported collaborators *)

(** [wrapper.settings.classes]; a class name that is missing or empty is
    falsy and makes the getter fall back to its default. *)
Record Classes := {
  valid_class : option string;
  invalid_class : option string;
  validated_class : option string;
}.

(** A registered custom validator answers [true], [false] or [undefined]
    ([None]). *)
Definition Validator := Element -> option bool.

(** What the module imports. The predicates answer [true] when the
    constraint is satisfied. They, the validators and the helpers are
    functions of the control as [Element] describes it: they have no effect
    on the world and do not look at the class list or at [aria-invalid]. *)
Record Collaborators := {
  test_bad_input : Element -> bool;
  test_pattern : Element -> bool;
  test_max : Element -> bool;
  test_min : Element -> bool;
  test_step : Element -> bool;
  test_maxlength : Element -> bool;
  test_minlength : Element -> bool;
  test_type : Element -> bool;
  test_required : Element -> bool;
  is_validation_candidate : Element -> bool;
  get_type : Element -> string;
  get_next_valid : Element -> js_value * js_value;
  string_to_number : js_value -> string -> js_value;
  string_to_date : js_value -> string -> js_value;
  unicode_string_length : string -> Z;
  translate : string -> string;
  sprintf : string -> list js_value -> string;
  Registry_get : Element -> list Validator;
  get_wrapper : Element -> option Classes;
}.

(** ** The checkers and the getters built from them *)

Section Checkers.

Context (env : Collaborators).

(** The date-family types of the two range checkers' [switch]. *)
Definition is_date_type (type : string) : bool :=
  (type =? "date") || (type =? "datetime") || (type =? "datetime-local").

Definition badInput (el : Element) : M bool :=
  let invalid := negb (test_bad_input env el) in
  when invalid
    (message_store_set el (translate env "Please match the requested type.")) >>
  ret invalid.

(** The [for ... of] loop over the registered validators: the value of
    [valid] when the loop is left, and the number of validators that were
    called. *)
Fixpoint call_validators (custom_validators : list Validator) (el : Element)
  : bool * nat :=
  match custom_validators with
  | [] => (true, 0)
  | validator :: rest =>
      match validator el with
      | Some false => (false, 1)
      | _ => let (still_valid, calls) := call_validators rest el in
             (still_valid, S calls)
      end
  end.

Definition customError (el : Element) : M bool :=
  let custom_validators := Registry_get env el in
  let valid :=
    if negb (length custom_validators =? 0)%nat
    then fst (call_validators custom_validators el)
    else true in
  let! valid :=
    (if valid
     then let! msg := message_store_get el in
          ret (negb (negb (text msg =? "") && is_custom msg))
     else ret valid) in
  ret (negb valid).

Definition patternMismatch (el : Element) : M bool :=
  let invalid := negb (test_pattern env el) in
  when invalid
    (message_store_set el
       (if negb (title el =? "")
        then sprintf env (translate env "PatternMismatchWithTitle") [JsString (title el)]
        else translate env "PatternMismatch")) >>
  ret invalid.

Definition rangeOverflow (el : Element) : M bool :=
  let invalid := negb (test_max env el) in
  let type := get_type env el in
  when invalid
    (let msg :=
       if is_date_type type then
         sprintf env (translate env "DateRangeOverflow")
           [string_to_date env (attr_value (getAttribute el "max")) type]
       else if type =? "time" then
         sprintf env (translate env "TimeRangeOverflow")
           [string_to_date env (attr_value (getAttribute el "max")) type]
       else
         sprintf env (translate env "NumberRangeOverflow")
           [string_to_number env (attr_value (getAttribute el "max")) type] in
     message_store_set el msg) >>
  ret invalid.

Definition rangeUnderflow (el : Element) : M bool :=
  let invalid := negb (test_min env el) in
  let type := get_type env el in
  when invalid
    (let msg :=
       if is_date_type type then
         sprintf env (translate env "DateRangeUnderflow")
           [string_to_date env (attr_value (getAttribute el "max")) type]
       else if type =? "time" then
         sprintf env (translate env "TimeRangeUnderflow")
           [string_to_date env (attr_value (getAttribute el "max")) type]
       else
         sprintf env (translate env "NumberRangeUnderflow")
           [string_to_number env (attr_value (getAttribute el "max")) type] in
     message_store_set el msg) >>
  ret invalid.

Definition is_null (v : js_value) : bool :=
  match v with
  | JsNull => true
  | _ => false
  end.

(** [sole] starts as [false] ([None] here) and otherwise holds a bound. *)
Definition stepMismatch (el : Element) : M bool :=
  let invalid := negb (test_step env el) in
  when invalid
    (let (min, max) := get_next_valid env el in
     let sole :=
       if is_null min then Some max
       else if is_null max then Some min
       else None in
     match sole with
     | Some bound =>
         message_store_set el
           (sprintf env (translate env "StepMismatchOneValue") [bound])
     | None =>
         message_store_set el
           (sprintf env (translate env "StepMismatch") [min; max])
     end) >>
  ret invalid.

Definition tooLong (el : Element) : M bool :=
  let invalid := negb (test_maxlength env el) in
  when invalid
    (message_store_set el
       (sprintf env (translate env "TextTooLong")
          [attr_value (getAttribute el "maxlength");
           JsNumber (unicode_string_length env (value el))])) >>
  ret invalid.

Definition tooShort (el : Element) : M bool :=
  let invalid := negb (test_minlength env el) in
  when invalid
    (message_store_set el
       (sprintf env
          (translate env "Please lengthen this text to %l characters or more (you are currently using %l characters).")
          [attr_value (getAttribute el "maxlength");
           JsNumber (unicode_string_length env (value el))])) >>
  ret invalid.

Definition typeMismatch (el : Element) : M bool :=
  let invalid := negb (test_type env el) in
  when invalid
    (let msg := translate env "Please use the appropriate format." in
     let type := get_type env el in
     let msg :=
       if type =? "email" then
         if hasAttribute el "multiple"
         then translate env "Please enter a comma separated list of email addresses."
         else translate env "InvalidEmail"
       else if type =? "url" then translate env "InvalidURL"
       else if type =? "file" then translate env "Please select a file of the correct type."
       else msg in
     message_store_set el msg) >>
  ret invalid.

Definition valueMissing (el : Element) : M bool :=
  let invalid := negb (test_required env el) in
  when invalid
    (let msg := translate env "ValueMissing" in
     let type := get_type env el in
     let msg :=
       if type =? "checkbox" then translate env "CheckboxMissing"
       else if type =? "radio" then translate env "RadioMissing"
       else if type =? "file" then
         if hasAttribute el "multiple"
         then translate env "Please select one or more files."
         else translate env "FileMissing"
       else if is_HTMLSelectElement el then translate env "SelectMissing"
       else msg in
     message_store_set el msg) >>
  ret invalid.

(** The object literal; [for ... in] visits its keys in the order they are
    written. *)
Definition validity_state_checkers : list (string * (Element -> M bool)) :=
  [ ("badInput", badInput);
    ("customError", customError);
    ("patternMismatch", patternMismatch);
    ("rangeOverflow", rangeOverflow);
    ("rangeUnderflow", rangeUnderflow);
    ("stepMismatch", stepMismatch);
    ("tooLong", tooLong);
    ("tooShort", tooShort);
    ("typeMismatch", typeMismatch);
    ("valueMissing", valueMissing) ].

(** [wrapper && wrapper.settings.classes.x || fallback]. *)
Definition class_name (wrapper : option Classes)
    (setting : Classes -> option string) (fallback : string) : string :=
  match wrapper ≫= setting with
  | Some name => if name =? "" then fallback else name
  | None => fallback
  end.

(** The loop of the [valid] getter over the checkers. The result is the
    key at which the getter returned [false], or [None] when the loop ran
    to its end. *)
Fixpoint valid_loop (checkers : list (string * (Element -> M bool)))
    (el : Element) (invalidClass validClass : string) : M (option string) :=
  match checkers with
  | [] => ret None
  | (prop, checker) :: rest =>
      let! failed := checker el in
      if failed then
        classList_add el invalidClass >>
        classList_remove el validClass >>
        set_aria_invalid el "true" >>
        ret (Some prop)
      else valid_loop rest el invalidClass validClass
  end.

(** The body of the [valid] getter, run on [this.element]. [Some prop] is
    the [return false] inside the loop, taken at the checker [prop];
    [None] is the final [return true]. *)
Definition valid_body (this_element : Element) : M (option string) :=
  let wrapper := get_wrapper env this_element in
  let validClass := class_name wrapper valid_class "hf-valid" in
  let invalidClass := class_name wrapper invalid_class "hf-invalid" in
  let validatedClass := class_name wrapper validated_class "hf-validated" in
  classList_add this_element validatedClass >>
  let! returned :=
    (if is_validation_candidate env this_element
     then valid_loop validity_state_checkers this_element invalidClass validClass
     else ret None) in
  match returned with
  | Some prop => ret (Some prop)
  | None =>
      message_store_delete this_element >>
      classList_remove this_element invalidClass >>
      classList_add this_element validClass >>
      set_aria_invalid this_element "false" >>
      ret None
  end.

Definition valid (this_element : Element) : M bool :=
  let! returned := valid_body this_element in
  ret (match returned with Some _ => false | None => true end).

(** The properties defined on the prototype: one getter per checker,
    calling it on [this.element], and then [valid]. *)
Definition ValidityStatePrototype : list (string * (Element -> M bool)) :=
  (map (fun '(prop, func) => (prop, fun this_element => func this_element))
       validity_state_checkers
   ++ [("valid", valid)])%list.

End Checkers.

(** ** The constructor and its cache *)

(** What a caller may pass to the constructor. Only [ArgElement] is an
    instance of [window.HTMLElement]. *)
Inductive Argument :=
| ArgUndefined
| ArgValue (v : js_value)
| ArgObject (reference : nat)
| ArgElement (el : Element).

Inductive Completion (A : Type) :=
| Normal (result : A)
| Throw (error : string).
Arguments Normal {A} result.
Arguments Throw {A} error.

Definition cache_get (el : Element) : M (option nat) :=
  fun w => (cache w !! identity el, w).

Definition cache_set (el : Element) (this : nat) : M unit :=
  fun w =>
    (tt, {| messages := messages w; classList := classList w;
            aria_invalid := aria_invalid w;
            cache := <[identity el := this]> (cache w);
            instances := instances w;
            next_instance := next_instance w |}).

(** [this.element = element]. *)
Definition set_element (this : nat) (el : Element) : M unit :=
  fun w =>
    (tt, {| messages := messages w; classList := classList w;
            aria_invalid := aria_invalid w; cache := cache w;
            instances := <[this := {| element := Some el |}]> (instances w);
            next_instance := next_instance w |}).

(** The fresh object that [new] binds to [this]. *)
Definition allocate : M nat :=
  fun w =>
    (next_instance w,
     {| messages := messages w; classList := classList w;
        aria_invalid := aria_invalid w; cache := cache w;
        instances := <[next_instance w := {| element := None |}]> (instances w);
        next_instance := S (next_instance w) |}).

(** The function body when [this instanceof ValidityState] holds. The
    result is the object returned explicitly, or [None] when the body
    falls off its end. *)
Definition ValidityState_body (this : nat) (arg : Argument)
  : M (Completion (option nat)) :=
  match arg with
  | ArgElement el =>
      let! cached := cache_get el in
      match cached with
      | Some instance => ret (Normal (Some instance))
      | None =>
          set_element this el >>
          cache_set el this >>
          ret (Normal None)
      end
  | _ => ret (Throw "cannot create a ValidityState for a non-element")
  end.

(** [new ValidityState(arg)]: an explicitly returned object replaces the
    fresh one. *)
Definition new_ValidityState (arg : Argument) : M (Completion nat) :=
  let! this := allocate in
  let! completion := ValidityState_body this arg in
  ret (match completion with
       | Normal (Some instance) => Normal instance
       | Normal None => Normal this
       | Throw error => Throw error
       end).

(** [ValidityState(arg)] without [new], as the installed [validity]
    accessor calls it: [this] is not an instance, so the body ends in
    [return new ValidityState(element)]. *)
Definition ValidityState (arg : Argument) : M (Completion nat) :=
  match arg with
  | ArgElement el =>
      let! cached := cache_get el in
      match cached with
      | Some instance => ret (Normal instance)
      | None => new_ValidityState arg
      end
  | _ => ret (Throw "cannot create a ValidityState for a non-element")
  end.

(** The two ways of invoking the constructor. *)
Inductive Invocation := WithNew | WithoutNew.

Definition invoke (how : Invocation) (arg : Argument) : M (Completion nat) :=
  match how with
  | WithNew => new_ValidityState arg
  | WithoutNew => ValidityState arg
  end.

(** The instance [reference] carries the control [el] in its [element]
    field. *)
Definition state_of (w : World) (reference : nat) (el : Element) : Prop :=
  instances w !! reference = Some {| element := Some el |}.

(** The cache and the heap of instances agree: references are allocated
    below [next_instance], every instance bound to a control is the one the
    cache holds for it, and every cache entry is such an instance. *)
Record coherent (w : World) : Prop := {
  allocated_below : forall reference inst,
    instances w !! reference = Some inst -> reference < next_instance w;
  bound_is_cached : forall reference el,
    state_of w reference el -> cache w !! identity el = Some reference;
  cached_is_bound : forall id reference,
    cache w !! id = Some reference ->
    exists el, state_of w reference el /\ identity el = id;
}.

(** ** A sample choice of collaborators

    Small stand-ins for the imported helpers, used to run the model on
    concrete controls. *)

Definition digit (c : ascii) : option Z :=
  let n := (Z.of_N (N_of_ascii c) - 48)%Z in
  if ((0 <=? n) && (n <=? 9))%Z then Some n else None.

Fixpoint parse_digits (acc : Z) (s : string) : option Z :=
  match s with
  | EmptyString => Some acc
  | String c rest =>
      match digit c with
      | Some d => parse_digits (10 * acc + d)%Z rest
      | None => None
      end
  end.

Definition parse_number (s : string) : option Z :=
  match s with
  | EmptyString => None
  | String "-" rest =>
      if rest =? "" then None else Z.opp <$> parse_digits 0 rest
  | _ => parse_digits 0 s
  end.

Definition attribute_number (el : Element) (name : string) : option Z :=
  getAttribute el name ≫= parse_number.

(** Code points of a UTF-8 string: the bytes that are not continuation
    bytes. *)
Fixpoint code_points (s : string) : Z :=
  match s with
  | EmptyString => 0
  | String c rest =>
      ((if (Z.land (Z.of_N (N_of_ascii c)) 192 =? 128)%Z then 0 else 1)
       + code_points rest)%Z
  end.

Definition render (v : js_value) : string :=
  match v with
  | JsNull => "null"
  | JsString s => s
  | JsNumber n => pretty n
  | JsDate ms => pretty ms
  end.

(** Each two-character marker takes the next argument. *)
Fixpoint sample_sprintf (template : string) (args : list js_value) : string :=
  match template with
  | EmptyString => EmptyString
  | String c rest =>
      match rest with
      | String marker rest' =>
          if Ascii.eqb c "%" then
            match args with
            | arg :: args' => render arg ++ sample_sprintf rest' args'
            | [] => String c (String marker (sample_sprintf rest' []))
            end
          else String c (sample_sprintf rest args)
      | EmptyString => String c EmptyString
      end
  end.

Definition sample_translate (key : string) : string :=
  if key =? "TextTooLong" then
    "Please shorten this text to %l characters or less (you are currently using %l characters)."
  else if key =? "ValueMissing" then "Please fill out this field."
  else if key =? "NumberRangeOverflow" then "Please select a value that is no more than %l."
  else if key =? "NumberRangeUnderflow" then "Please select a value that is no less than %l."
  else if key =? "PatternMismatch" then "Please match the requested format."
  else key.

Definition within (bound value : option Z) (le : Z -> Z -> bool) : bool :=
  match bound, value with
  | Some b, Some v => le b v
  | _, _ => true
  end.

Definition sample : Collaborators := {|
  test_bad_input := fun _ => true;
  test_pattern := fun _ => true;
  test_max := fun el =>
    within (attribute_number el "max") (parse_number (value el)) Z.geb;
  test_min := fun el =>
    within (attribute_number el "min") (parse_number (value el)) Z.leb;
  test_step := fun _ => true;
  test_maxlength := fun el =>
    within (attribute_number el "maxlength") (Some (code_points (value el))) Z.geb;
  test_minlength := fun el =>
    (value el =? "")
    || within (attribute_number el "minlength") (Some (code_points (value el))) Z.leb;
  test_type := fun _ => true;
  test_required := fun el =>
    negb (hasAttribute el "required") || negb (value el =? "");
  is_validation_candidate := fun el => negb (hasAttribute el "disabled");
  get_type := fun el => default "text" (getAttribute el "type");
  get_next_valid := fun _ => (JsNull, JsNull);
  string_to_number := fun v _ =>
    match v with
    | JsString s => from_option JsNumber JsNull (parse_number s)
    | _ => JsNull
    end;
  string_to_date := fun v _ => v;
  unicode_string_length := code_points;
  translate := sample_translate;
  sprintf := sample_sprintf;
  Registry_get := fun _ => [];
  get_wrapper := fun _ => None;
|}.

(** The sample collaborators with both the [required] and the [maxlength]
    predicate reporting a violation. *)
Definition sample_both_failing : Collaborators := {|
  test_bad_input := test_bad_input sample;
  test_pattern := test_pattern sample;
  test_max := test_max sample;
  test_min := test_min sample;
  test_step := test_step sample;
  test_maxlength := fun _ => false;
  test_minlength := test_minlength sample;
  test_type := test_type sample;
  test_required := fun _ => false;
  is_validation_candidate := is_validation_candidate sample;
  get_type := get_type sample;
  get_next_valid := get_next_valid sample;
  string_to_number := string_to_number sample;
  string_to_date := string_to_date sample;
  unicode_string_length := unicode_string_length sample;
  translate := translate sample;
  sprintf := sprintf sample;
  Registry_get := Registry_get sample;
  get_wrapper := get_wrapper sample;
|}.

(** [<input type="number" min="5" max="10" value="3">] *)
Definition number_input : Element := {|
  identity := 1;
  value := "3";
  title := "";
  attributes := {[ "type" := "number"; "min" := "5"; "max" := "10" ]};
  is_HTMLSelectElement := false;
|}.

(** [<input type="text" minlength="5" maxlength="20" value="abc">] *)
Definition short_text_input : Element := {|
  identity := 2;
  value := "abc";
  title := "";
  attributes := {[ "type" := "text"; "minlength" := "5"; "maxlength" := "20" ]};
  is_HTMLSelectElement := false;
|}.

(** [<input type="text" required maxlength="5" value="123456789">] *)
Definition long_text_input : Element := {|
  identity := 3;
  value := "123456789";
  title := "";
  attributes := {[ "type" := "text"; "required" := ""; "maxlength" := "5" ]};
  is_HTMLSelectElement := false;
|}.

(** [<input type="text" required disabled value="">] *)
Definition disabled_input : Element := {|
  identity := 4;
  value := "";
  title := "";
  attributes := {[ "type" := "text"; "required" := ""; "disabled" := "" ]};
  is_HTMLSelectElement := false;
|}.

(** ** Notions used to state the properties *)

Definition set_message (el : Element) (msg : string) (w : World) : World :=
  snd (message_store_set el msg w).

(** The three writes of the [valid] getter before it returns [false]. *)
Definition mark_invalid (el : Element) (invalidClass validClass : string)
    (w : World) : World :=
  snd ((classList_add el invalidClass >>
        classList_remove el validClass >>
        set_aria_invalid el "true") w).

(** A stored message that [customError] treats as a pending custom error:
    non-empty and carrying the marker. *)
Definition pending_custom (stored : option Message) : bool :=
  match stored with
  | Some msg => negb (text msg =? "") && is_custom msg
  | None => false
  end.

(** Some registered validator answers an explicit [false]. *)
Definition fails_explicitly (el : Element) (validator : Validator) : Prop :=
  validator el = Some false.

(** A checker that consults a predicate and, on a violation, stores a
    message; neither depends on the world. *)
Definition structural (checker : Element -> M bool) : Prop :=
  forall el, exists (invalid : bool) msg, forall w,
    checker el w = (invalid, if invalid then set_message el msg w else w).

(** What the aggregate getter relies on in a checker. *)
Record well_behaved (checker : Element -> M bool) : Prop := {
  quiet : forall el w,
    fst (checker el w) = false -> snd (checker el w) = w;
  frame : forall el w,
    snd (checker el w) = w \/
    exists msg, snd (checker el w) = set_message el msg w;
  pass_persists : forall el w w',
    fst (checker el w) = false ->
    messages w' !! identity el = messages w !! identity el \/
    pending_custom (messages w' !! identity el) = false ->
    fst (checker el w') = false;
  fail_persists : forall el w w',
    fst (checker el w) = true ->
    messages w' !! identity el = messages (snd (checker el w)) !! identity el ->
    fst (checker el w') = true /\
    messages (snd (checker el w')) !! identity el =
    messages (snd (checker el w)) !! identity el;
}.

(** Two worlds that differ at most in the message stored for [el]. *)
Definition same_but_message (el : Element) (w w' : World) : Prop :=
  classList w' = classList w /\
  aria_invalid w' = aria_invalid w /\
  cache w' = cache w /\
  instances w' = instances w /\
  next_instance w' = next_instance w /\
  forall id, id <> identity el -> messages w' !! id = messages w !! id.

(** Every checker of the list reports no violation in the world [w]. *)
Definition all_pass (checkers : list (string * (Element -> M bool)))
    (el : Element) (w : World) : Prop :=
  forall prop checker, (prop, checker) ∈ checkers -> fst (checker el w) = false.

(** The class names the getter works with for a given control. *)
Definition validClass (env : Collaborators) (el : Element) : string :=
  class_name (get_wrapper env el) valid_class "hf-valid".
Definition invalidClass (env : Collaborators) (el : Element) : string :=
  class_name (get_wrapper env el) invalid_class "hf-invalid".
Definition validatedClass (env : Collaborators) (el : Element) : string :=
  class_name (get_wrapper env el) validated_class "hf-validated".

(** The world once the getter has added the "validated" class. *)
Definition mark_validated (env : Collaborators) (el : Element) (w : World)
  : World :=
  snd (classList_add el (validatedClass env el) w).

(** The four writes of the getter before it returns [true]. *)
Definition mark_valid (env : Collaborators) (el : Element) (w : World)
  : World :=
  snd ((message_store_delete el >>
        classList_remove el (invalidClass env el) >>
        classList_add el (validClass env el) >>
        set_aria_invalid el "false") w).

(** The message [tooLong] stores for a control. *)
Definition tooLong_message (env : Collaborators) (el : Element) : Message :=
  {| text := sprintf env (translate env "TextTooLong")
               [attr_value (getAttribute el "maxlength");
                JsNumber (unicode_string_length env (value el))];
     is_custom := false |}.

(** A world in which [disabled_input] still carries a message. *)
Definition stale_world : World :=
  set_message disabled_input "Please fill out this field." empty_world.

(** ** Notions used for the further properties *)

(** The token list after [classList.add(token)]. *)
Definition add_token (token : string) (old : list string) : list string :=
  if bool_decide (token ∈ old) then old else (old ++ [token])%list.

(** The token list after [classList.remove(token)]. *)
Definition remove_token (token : string) (old : list string) : list string :=
  filter (fun t => t <> token) old.

(** Two worlds that differ at most in what is kept for the control [el]:
    its message, its class list and its [aria-invalid] flag. *)
Definition same_but_control (el : Element) (w w' : World) : Prop :=
  cache w' = cache w /\
  instances w' = instances w /\
  next_instance w' = next_instance w /\
  forall id, id <> identity el ->
    messages w' !! id = messages w !! id /\
    classList w' !! id = classList w !! id /\
    aria_invalid w' !! id = aria_invalid w !! id.

(** Two worlds with the same message store and presentation state. *)
Definition same_page (w w' : World) : Prop :=
  messages w' = messages w /\
  classList w' = classList w /\
  aria_invalid w' = aria_invalid w.

(** The sample collaborators with a chosen answer of the raw-input and
    the step predicate, chosen neighbouring step values and chosen
    registered validators. *)
Definition sample_variant (bad_input_ok step_ok : bool)
    (next_valid : js_value * js_value) (validators : list Validator)
  : Collaborators := {|
  test_bad_input := fun _ => bad_input_ok;
  test_pattern := test_pattern sample;
  test_max := test_max sample;
  test_min := test_min sample;
  test_step := fun _ => step_ok;
  test_maxlength := test_maxlength sample;
  test_minlength := test_minlength sample;
  test_type := test_type sample;
  test_required := test_required sample;
  is_validation_candidate := is_validation_candidate sample;
  get_type := get_type sample;
  get_next_valid := fun _ => next_valid;
  string_to_number := string_to_number sample;
  string_to_date := string_to_date sample;
  unicode_string_length := unicode_string_length sample;
  translate := translate sample;
  sprintf := sprintf sample;
  Registry_get := fun _ => validators;
  get_wrapper := get_wrapper sample;
|}.

(** Three registered validators: no opinion, an explicit [false], [true]. *)
Definition rejecting_validators : list Validator :=
  [ (fun _ => None); (fun _ => Some false); (fun _ => Some true) ].

(** Acceptable raw input and a validator that rejects. *)
Definition rejecting_sample : Collaborators :=
  sample_variant true true (JsNull, JsNull) rejecting_validators.

(** Rejected raw input, with the rejecting validators registered. *)
Definition bad_input_sample : Collaborators :=
  sample_variant false true (JsNull, JsNull) rejecting_validators.

(** Rejected raw input and no validators. *)
Definition bad_input_only_sample : Collaborators :=
  sample_variant false true (JsNull, JsNull) [].

(** A step violation with no neighbouring valid value on either side. *)
Definition step_sample : Collaborators :=
  sample_variant true false (JsNull, JsNull) [].

(** [<input type="text" value="hello">] *)
Definition plain_input : Element := {|
  identity := 5;
  value := "hello";
  title := "";
  attributes := {[ "type" := "text" ]};
  is_HTMLSelectElement := false;
|}.

(** A world in which [plain_input] carries a custom message, as
    [setCustomValidity] leaves it. *)
Definition custom_world : World :=
  {| messages := {[ 5 := {| text := "Pick another name."; is_custom := true |} ]};
     classList := ∅; aria_invalid := ∅;
     cache := ∅; instances := ∅; next_instance := 0 |}.

(** ** Properties of the checkers *)

Section Properties.

Context (env : Collaborators).

Lemma messages_set_message el msg w :
  messages (set_message el msg w) =
  <[identity el := {| text := msg; is_custom := false |}]> (messages w).
Proof. reflexivity. Qed.

Lemma pending_custom_set_message el msg w :
  pending_custom (messages (set_message el msg w) !! identity el) = false.
Proof.
  rewrite messages_set_message, lookup_insert_eq. simpl.
  apply andb_false_r.
Qed.

Lemma structural_well_behaved checker :
  structural checker -> well_behaved checker.
Proof.
  intros Hs. split.
  - intros el w. destruct (Hs el) as (invalid & msg & E). rewrite E. simpl.
    now intros ->.
  - intros el w. destruct (Hs el) as (invalid & msg & E). rewrite E.
    destruct invalid; simpl; eauto.
  - intros el w w'. destruct (Hs el) as (invalid & msg & E).
    rewrite !E. simpl. auto.
  - intros el w w'. destruct (Hs el) as (invalid & msg & E).
    rewrite !E. simpl. intros -> _. split; [reflexivity|].
    now rewrite !messages_set_message, !lookup_insert_eq.
Qed.

Lemma call_validators_pass (validators : list Validator) el :
  fst (call_validators validators el) = true <->
  forall v, v ∈ validators -> ~ fails_explicitly el v.
Proof.
  unfold fails_explicitly. induction validators as [|v vs IH]; simpl.
  - split; [|reflexivity]. intros _ v Hv. inversion Hv.
  - destruct (v el) as [[|]|] eqn:Ev;
      try (destruct (call_validators vs el) as [ok calls]; simpl in *;
           rewrite IH; split;
           [ intros H u Hu; apply elem_of_cons in Hu as [->|Hu];
             [congruence | now apply H]
           | intros H u Hu; apply H; now right ]).
    simpl. split; [discriminate|]. intros H. exfalso. apply (H v); [left|done].
Qed.

Lemma customError_eq el w :
  customError env el w =
  (negb (fst (call_validators (Registry_get env el) el))
   || pending_custom (messages w !! identity el), w).
Proof.
  unfold customError, bind, ret, message_store_get, pending_custom.
  destruct (Registry_get env el) as [|v vs]; simpl.
  - destruct (messages w !! identity el) as [msg|]; simpl; [|reflexivity].
    now rewrite negb_involutive.
  - destruct (fst _); simpl; [|reflexivity].
    destruct (messages w !! identity el) as [msg|]; simpl; [|reflexivity].
    now rewrite negb_involutive.
Qed.

Lemma customError_well_behaved : well_behaved (customError env).
Proof.
  split.
  - intros el w _. now rewrite customError_eq.
  - intros el w. left. now rewrite customError_eq.
  - intros el w w'. rewrite !customError_eq. simpl.
    intros [Hv Hp]%orb_false_iff [->| ->]; rewrite Hv; [now rewrite Hp | reflexivity].
  - intros el w w'. rewrite !customError_eq. simpl. intros H ->. now rewrite H.
Qed.

Ltac structural_by test :=
  let el := fresh "el" in
  intros el; unfold when, bind, ret;
  exists (negb (test el)); eexists; intros w;
  destruct (test el); simpl; reflexivity.

Lemma badInput_structural : structural (badInput env).
Proof. unfold badInput. structural_by (test_bad_input env). Qed.

Lemma patternMismatch_structural : structural (patternMismatch env).
Proof. unfold patternMismatch. structural_by (test_pattern env). Qed.

Lemma rangeOverflow_structural : structural (rangeOverflow env).
Proof. unfold rangeOverflow. structural_by (test_max env). Qed.

Lemma rangeUnderflow_structural : structural (rangeUnderflow env).
Proof. unfold rangeUnderflow. structural_by (test_min env). Qed.

Lemma stepMismatch_structural : structural (stepMismatch env).
Proof.
  unfold stepMismatch. intros el.
  destruct (get_next_valid env el) as [min max].
  destruct (is_null min), (is_null max);
    revert el; structural_by (test_step env).
Qed.

Lemma tooLong_structural : structural (tooLong env).
Proof. unfold tooLong. structural_by (test_maxlength env). Qed.

Lemma tooShort_structural : structural (tooShort env).
Proof. unfold tooShort. structural_by (test_minlength env). Qed.

Lemma typeMismatch_structural : structural (typeMismatch env).
Proof. unfold typeMismatch. structural_by (test_type env). Qed.

Lemma valueMissing_structural : structural (valueMissing env).
Proof. unfold valueMissing. structural_by (test_required env). Qed.

Lemma checkers_well_behaved :
  Forall (fun entry => well_behaved (snd entry)) (validity_state_checkers env).
Proof.
  unfold validity_state_checkers.
  repeat (apply Forall_cons; split; simpl;
          [ first [ apply customError_well_behaved
                  | apply structural_well_behaved;
                    auto using badInput_structural, patternMismatch_structural,
                      rangeOverflow_structural, rangeUnderflow_structural,
                      stepMismatch_structural, tooLong_structural,
                      tooShort_structural, typeMismatch_structural,
                      valueMissing_structural ] | ]).
  apply Forall_nil_2.
Qed.

Lemma checker_well_behaved prop checker :
  (prop, checker) ∈ validity_state_checkers env -> well_behaved checker.
Proof.
  intros Hin.
  pose proof checkers_well_behaved as H.
  rewrite Forall_forall in H. apply (H _ Hin).
Qed.

(** *** The loop of the getter *)

Lemma all_pass_cons prop checker rest el w :
  all_pass ((prop, checker) :: rest) el w <->
  fst (checker el w) = false /\ all_pass rest el w.
Proof.
  unfold all_pass. split.
  - intros H. split; [apply (H prop); left|]. intros p c Hin. apply (H p). now right.
  - intros [H1 H2] p c [E|Hin]%elem_of_cons; [congruence | now apply (H2 p)].
Qed.

Lemma valid_loop_pass checkers el ic vc w :
  Forall (fun entry => well_behaved (snd entry)) checkers ->
  all_pass checkers el w ->
  valid_loop checkers el ic vc w = (None, w).
Proof.
  induction 1 as [|[prop checker] rest Hwb _ IH]; intros Hall; simpl in *.
  - reflexivity.
  - apply all_pass_cons in Hall as [Hc Hrest].
    unfold bind. pose proof (quiet _ Hwb el w Hc) as Hq. revert Hc Hq.
    destruct (checker el w) as [b w']. simpl. intros -> ->. now apply IH.
Qed.

Lemma valid_loop_fail pre prop checker post el ic vc w :
  Forall (fun entry => well_behaved (snd entry)) pre ->
  all_pass pre el w ->
  fst (checker el w) = true ->
  valid_loop (pre ++ (prop, checker) :: post) el ic vc w =
  (Some prop, mark_invalid el ic vc (snd (checker el w))).
Proof.
  induction 1 as [|[p c] rest Hwb _ IH]; intros Hall Hfail; simpl in *.
  - unfold bind at 1. revert Hfail.
    destruct (checker el w) as [b w']. simpl. intros ->.
    unfold mark_invalid, bind, ret. simpl. reflexivity.
  - apply all_pass_cons in Hall as [Hc Hrest].
    unfold bind at 1. pose proof (quiet _ Hwb el w Hc) as Hq. revert Hc Hq.
    destruct (c el w) as [b w']. simpl. intros -> ->. now apply IH.
Qed.

(** The loop either runs to its end with every checker passing, or stops
    at the first checker that fails. *)
Lemma valid_loop_cases checkers el ic vc w :
  Forall (fun entry => well_behaved (snd entry)) checkers ->
  (all_pass checkers el w /\ valid_loop checkers el ic vc w = (None, w)) \/
  (exists pre prop checker post,
     checkers = (pre ++ (prop, checker) :: post)%list /\
     all_pass pre el w /\
     fst (checker el w) = true /\
     valid_loop checkers el ic vc w =
     (Some prop, mark_invalid el ic vc (snd (checker el w)))).
Proof.
  intros Hwb. induction Hwb as [|[p c] rest Hc Hrest IH]; simpl in *.
  - left. split; [|reflexivity]. intros ? ? Hin. inversion Hin.
  - destruct (fst (c el w)) eqn:Ec.
    + right. exists [], p, c, rest. split; [reflexivity|].
      split; [intros ? ? Hin; inversion Hin|]. split; [assumption|].
      now apply (valid_loop_fail [] p c rest).
    + destruct IH as [[Hall Hl]|(pre & q & d & post & -> & Hall & Hd & Hl)].
      * left. assert (all_pass ((p, c) :: rest) el w) as Hall'
          by now apply all_pass_cons.
        split; [assumption|].
        apply (valid_loop_pass ((p, c) :: rest)); [now constructor|assumption].
      * right. exists ((p, c) :: pre), q, d, post. split; [reflexivity|].
        assert (all_pass ((p, c) :: pre) el w) as Hall'
          by now apply all_pass_cons.
        split; [assumption|]. split; [assumption|].
        apply (valid_loop_fail ((p, c) :: pre) q d post); [|assumption..].
        constructor; [assumption|].
        apply Forall_app in Hrest. tauto.
Qed.

(** A well-behaved checker's verdict depends on the world only through
    the message stored for the control. *)
Lemma verdict_reads_message checker el w w' :
  well_behaved checker ->
  messages w' !! identity el = messages w !! identity el ->
  fst (checker el w') = fst (checker el w).
Proof.
  intros Hwb E.
  destruct (fst (checker el w)) eqn:E1.
  - destruct (fst (checker el w')) eqn:E2; [reflexivity|].
    rewrite <- E1. symmetry. apply (pass_persists _ Hwb el w' w); auto.
  - apply (pass_persists _ Hwb el w w'); auto.
Qed.

Lemma all_pass_reads_message checkers el w w' :
  Forall (fun entry => well_behaved (snd entry)) checkers ->
  messages w' !! identity el = messages w !! identity el ->
  all_pass checkers el w -> all_pass checkers el w'.
Proof.
  intros Hwb E Hall prop checker Hin.
  rewrite Forall_forall in Hwb.
  rewrite (verdict_reads_message checker el w w' (Hwb _ Hin) E).
  now apply (Hall prop).
Qed.

Lemma messages_mark_validated el w :
  messages (mark_validated env el w) = messages w.
Proof. reflexivity. Qed.

Lemma messages_mark_invalid el ic vc w :
  messages (mark_invalid el ic vc w) = messages w.
Proof. reflexivity. Qed.

Lemma messages_mark_valid el w :
  messages (mark_valid env el w) = delete (identity el) (messages w).
Proof. reflexivity. Qed.

Lemma valid_body_unfold el w :
  valid_body env el w =
  if is_validation_candidate env el then
    match valid_loop (validity_state_checkers env) el
            (invalidClass env el) (validClass env el)
            (mark_validated env el w) with
    | (Some prop, w') => (Some prop, w')
    | (None, w') => (None, mark_valid env el w')
    end
  else (None, mark_valid env el (mark_validated env el w)).
Proof.
  unfold valid_body, invalidClass, validClass, mark_validated, validatedClass.
  generalize (validity_state_checkers env) as checkers. intros checkers.
  cbv zeta. unfold bind at 1.
  destruct (classList_add el _ w) as [[] w0]. simpl.
  unfold bind at 1.
  destruct (is_validation_candidate env el); [|reflexivity].
  destruct (valid_loop _ _ _ _ _) as [[prop|] w1]; reflexivity.
Qed.

(** The getter in closed form: it returns [true] when the control is no
    candidate or every checker passes, and otherwise stops at the first
    failing checker. *)
Lemma valid_body_cases el w :
  ((is_validation_candidate env el = false \/
    all_pass (validity_state_checkers env) el w) /\
   valid_body env el w = (None, mark_valid env el (mark_validated env el w)))
  \/
  (is_validation_candidate env el = true /\
   exists pre prop checker post,
     validity_state_checkers env = (pre ++ (prop, checker) :: post)%list /\
     all_pass pre el w /\
     fst (checker el w) = true /\
     fst (checker el (mark_validated env el w)) = true /\
     valid_body env el w =
     (Some prop,
      mark_invalid el (invalidClass env el) (validClass env el)
        (snd (checker el (mark_validated env el w))))).
Proof.
  rewrite valid_body_unfold.
  destruct (is_validation_candidate env el) eqn:Hc.
  - pose proof checkers_well_behaved as Hwb.
    destruct (valid_loop_cases (validity_state_checkers env) el
                (invalidClass env el) (validClass env el)
                (mark_validated env el w) Hwb)
      as [[Hall Hl]|(pre & prop & checker & post & E & Hall & Hf & Hl)].
    + left. split.
      * right. revert Hall. now apply all_pass_reads_message.
      * now rewrite Hl.
    + right. split; [reflexivity|]. exists pre, prop, checker, post.
      assert (Forall (fun entry => well_behaved (snd entry)) pre) as Hpre.
      { rewrite E in Hwb. apply Forall_app in Hwb. tauto. }
      assert (well_behaved checker) as Hchk.
      { apply (checker_well_behaved prop). rewrite E.
        apply elem_of_app. right. left. }
      split; [assumption|]. split.
      { revert Hall. now apply all_pass_reads_message. }
      split.
      { rewrite <- Hf. now apply verdict_reads_message. }
      split; [assumption|]. now rewrite Hl.
  - left. split; [now left|]. reflexivity.
Qed.

Lemma valid_eq el w :
  valid env el w =
  (match fst (valid_body env el w) with Some _ => false | None => true end,
   snd (valid_body env el w)).
Proof.
  unfold valid, bind, ret. now destruct (valid_body env el w) as [[prop|] w'].
Qed.

(** ** The aggregate facet *)

(** Reading [valid] yields [true] exactly when the control is not a
    validation candidate or every checker of the table passes. *)
Lemma valid_iff_table_passes (el : Element) (w : World) :
  fst (valid env el w) = true <->
  is_validation_candidate env el = false \/
  (forall prop checker,
     (prop, checker) ∈ validity_state_checkers env ->
     fst (checker el w) = false).
Proof.
  rewrite valid_eq. simpl.
  destruct (valid_body_cases el w)
    as [[H E]|(Hc & pre & prop & checker & post & Ecs & Hall & Hf & _ & E)];
    rewrite E; simpl.
  - split; [intros _; exact H | reflexivity].
  - split; [discriminate|]. intros [Hn|Hp]; [congruence|].
    exfalso. specialize (Hp prop checker). rewrite Hf in Hp.
    enough (false = true) by discriminate. symmetry. apply Hp.
    rewrite Ecs. apply elem_of_app. right. left.
Qed.

(** C4. Reading [valid] yields [true] exactly when the control is not a
    validation candidate or each of the ten facet checkers ([badInput],
    [customError], [patternMismatch], [rangeOverflow], [rangeUnderflow],
    [stepMismatch], [tooLong], [tooShort], [typeMismatch] and
    [valueMissing]), run on the control in the current world, reports no
    failure. *)
Theorem valid_iff_exempt_or_ten_facets_pass (el : Element) (w : World) :
  fst (valid env el w) = true <->
  is_validation_candidate env el = false \/
  (fst (badInput env el w) = false /\
   fst (customError env el w) = false /\
   fst (patternMismatch env el w) = false /\
   fst (rangeOverflow env el w) = false /\
   fst (rangeUnderflow env el w) = false /\
   fst (stepMismatch env el w) = false /\
   fst (tooLong env el w) = false /\
   fst (tooShort env el w) = false /\
   fst (typeMismatch env el w) = false /\
   fst (valueMissing env el w) = false).
Proof.
  rewrite valid_iff_table_passes.
  split; (intros [Hn|Hp]; [now left|right]).
  - unfold validity_state_checkers in Hp.
    repeat split.
    + apply (Hp "badInput"). rewrite !elem_of_cons. tauto.
    + apply (Hp "customError"). rewrite !elem_of_cons. tauto.
    + apply (Hp "patternMismatch"). rewrite !elem_of_cons. tauto.
    + apply (Hp "rangeOverflow"). rewrite !elem_of_cons. tauto.
    + apply (Hp "rangeUnderflow"). rewrite !elem_of_cons. tauto.
    + apply (Hp "stepMismatch"). rewrite !elem_of_cons. tauto.
    + apply (Hp "tooLong"). rewrite !elem_of_cons. tauto.
    + apply (Hp "tooShort"). rewrite !elem_of_cons. tauto.
    + apply (Hp "typeMismatch"). rewrite !elem_of_cons. tauto.
    + apply (Hp "valueMissing"). rewrite !elem_of_cons. tauto.
  - destruct Hp as (H1 & H2 & H3 & H4 & H5 & H6 & H7 & H8 & H9 & H10).
    intros prop checker Hin. unfold validity_state_checkers in Hin.
    repeat (apply elem_of_cons in Hin as [E|Hin];
            [injection E as -> ->; assumption|]).
    inversion Hin.
Qed.

(** C6. For a control that is not a validation candidate, reading [valid]
    yields [true] whatever the constraint predicates say, and after the
    read the message store holds no entry for the control. *)
Theorem exempt_control_valid_and_cleared (el : Element) (w : World) :
  is_validation_candidate env el = false ->
  fst (valid env el w) = true /\
  messages (snd (valid env el w)) !! identity el = None.
Proof.
  intros Hc. rewrite valid_eq, valid_body_unfold, Hc. simpl. split.
  - reflexivity.
  - apply lookup_delete_eq.
Qed.

(** Membership in the seven keys up to [tooLong]. *)
Lemma stops_before_valueMissing pre prop checker post el w :
  validity_state_checkers env = (pre ++ (prop, checker) :: post)%list ->
  all_pass pre el w ->
  test_maxlength env el = false ->
  prop ∈ ["badInput"; "customError"; "patternMismatch"; "rangeOverflow";
          "rangeUnderflow"; "stepMismatch"; "tooLong"].
Proof.
  intros E Hall Hlen. unfold validity_state_checkers in E.
  assert (fst (tooLong env el w) = true) as Hlong.
  { unfold tooLong, when, bind, ret. now rewrite Hlen. }
  do 7 (destruct pre as [|? pre];
        [ simpl in E; injection E as <- _ _; set_solver
        | simpl in E; injection E as <- E ]).
  exfalso. specialize (Hall "tooLong" (tooLong env)).
  rewrite Hlong in Hall. enough (true = false) by discriminate.
  apply Hall. do 6 right. left.
Qed.

(** C1, as the code has it. [tooLong] comes before [valueMissing], which
    is the last key: for a validation candidate violating both, reading
    [valid] yields [false] and stops at one of the seven keys up to
    [tooLong]; when the six checkers before [tooLong] pass, it stops at
    [tooLong] and the message left in the store is the one of [tooLong]. *)
Theorem short_circuit_at_tooLong (el : Element) (w : World) :
  is_validation_candidate env el = true ->
  test_required env el = false ->
  test_maxlength env el = false ->
  fst (valid env el w) = false /\
  (exists prop,
     fst (valid_body env el w) = Some prop /\
     prop ∈ ["badInput"; "customError"; "patternMismatch"; "rangeOverflow";
             "rangeUnderflow"; "stepMismatch"; "tooLong"]) /\
  (all_pass (take 6 (validity_state_checkers env)) el w ->
   fst (valid_body env el w) = Some "tooLong" /\
   messages (snd (valid env el w)) !! identity el =
   Some (tooLong_message env el)).
Proof.
  intros Hc Hreq Hlen.
  assert (forall w', tooLong env el w' =
                     (true, set_message el (text (tooLong_message env el)) w'))
    as Hlong.
  { intros w'. unfold tooLong, when, bind, ret. now rewrite Hlen. }
  assert (exists prop,
             fst (valid_body env el w) = Some prop /\
             prop ∈ ["badInput"; "customError"; "patternMismatch";
                     "rangeOverflow"; "rangeUnderflow"; "stepMismatch";
                     "tooLong"]) as Hstop.
  { destruct (valid_body_cases el w)
      as [[[Hn|Hp] E]|(_ & pre & prop & checker & post & Ecs & Hall & Hf & _ & E)].
    - congruence.
    - exfalso. specialize (Hp "tooLong" (tooLong env)). rewrite Hlong in Hp.
      enough (true = false) by discriminate. apply Hp.
      unfold validity_state_checkers. do 6 right. left.
    - rewrite E. exists prop. split; [reflexivity|].
      now apply (stops_before_valueMissing pre prop checker post el w). }
  split; [|split; [exact Hstop|]].
  - rewrite valid_eq. destruct Hstop as (prop & -> & _). reflexivity.
  - intros Hsix. rewrite valid_eq. cbn [fst snd].
    pose proof checkers_well_behaved as Hwb.
    assert (Forall (fun entry => well_behaved (snd entry))
              (take 6 (validity_state_checkers env))) as Hwb6
      by now apply Forall_take.
    rewrite valid_body_unfold, Hc.
    change (validity_state_checkers env) with
      (take 6 (validity_state_checkers env)
       ++ ("tooLong", tooLong env) :: drop 7 (validity_state_checkers env))%list.
    rewrite (valid_loop_fail _ "tooLong" (tooLong env)); [..|now rewrite Hlong].
    + rewrite Hlong. cbn [fst snd]. split; [reflexivity|].
      rewrite messages_mark_invalid, messages_set_message.
      apply lookup_insert_eq.
    + assumption.
    + revert Hsix. apply all_pass_reads_message; [assumption|reflexivity].
Qed.

(** C9. Reading [valid] a second time, right after a first read, yields
    the same boolean and leaves the same message for the control in the
    message store. *)
Theorem valid_twice_same (el : Element) (w : World) :
  fst (valid env el (snd (valid env el w))) = fst (valid env el w) /\
  messages (snd (valid env el (snd (valid env el w)))) !! identity el =
  messages (snd (valid env el w)) !! identity el.
Proof.
  rewrite !valid_eq. cbn [fst snd].
  destruct (valid_body_cases el w)
    as [[H E]|(Hc & pre & prop & checker & post & Ecs & Hall & Hf & Hf0 & E)];
    rewrite E; cbn [fst snd].
  - set (w1 := mark_valid env el (mark_validated env el w)).
    assert (messages w1 !! identity el = None) as Hnone.
    { unfold w1. rewrite messages_mark_valid. apply lookup_delete_eq. }
    assert (valid_body env el w1 =
            (None, mark_valid env el (mark_validated env el w1))) as E1.
    { destruct (valid_body_cases el w1)
        as [[_ E1]|(Hc1 & pre & prop & checker & post & Ecs & _ & Hf1 & _)];
        [exact E1|].
      exfalso. destruct H as [Hn|Hp]; [congruence|].
      assert (well_behaved checker) as Hwb.
      { apply (checker_well_behaved prop). rewrite Ecs.
        apply elem_of_app. right. left. }
      assert (fst (checker el w) = false) as Hpass.
      { apply (Hp prop). rewrite Ecs. apply elem_of_app. right. left. }
      rewrite (pass_persists _ Hwb el w w1 Hpass) in Hf1; [discriminate|].
      right. now rewrite Hnone. }
    rewrite E1. cbn [fst snd]. split; [reflexivity|].
    rewrite Hnone, messages_mark_valid. apply lookup_delete_eq.
  - set (w0 := mark_validated env el w) in *.
    set (w1 := mark_invalid el (invalidClass env el) (validClass env el)
                 (snd (checker el w0))).
    set (w2 := mark_validated env el w1).
    pose proof checkers_well_behaved as Hwb. rewrite Ecs in Hwb.
    apply Forall_app in Hwb as [Hpre Hrest].
    apply Forall_cons in Hrest as [Hchk _]. simpl in Hchk.
    assert (messages w2 = messages (snd (checker el w0))) as Hm by reflexivity.
    destruct (fail_persists _ Hchk el w0 w2 Hf0) as [Hf2 Hsame];
      [now rewrite Hm|].
    assert (all_pass pre el w2) as Hall2.
    { intros p c Hin.
      assert (well_behaved c) as Hc'.
      { rewrite Forall_forall in Hpre. apply (Hpre _ Hin). }
      apply (pass_persists _ Hc' el w w2); [now apply (Hall p)|].
      rewrite Hm.
      destruct (frame _ Hchk el w0) as [->|[msg ->]].
      - left. reflexivity.
      - right. apply pending_custom_set_message. }
    rewrite valid_body_unfold, Hc, Ecs.
    fold w2. rewrite (valid_loop_fail pre prop checker post); try assumption.
    cbn [fst snd]. split; [reflexivity|].
    now rewrite !messages_mark_invalid.
Qed.

(** ** The individual facets *)

(** C10. Reading one of the ten facet properties changes nothing but,
    at most, the message stored for the control, and nothing at all when
    the facet reports no failure: the class lists and the [aria-invalid]
    flags are as before. Reading [valid], in contrast, always sets the
    control's [aria-invalid] flag. *)
Theorem facet_read_touches_only_message
    (prop : string) (getter : Element -> M bool) (el : Element) (w : World) :
  (prop, getter) ∈ ValidityStatePrototype env ->
  prop <> "valid" ->
  same_but_message el w (snd (getter el w)) /\
  (fst (getter el w) = false -> snd (getter el w) = w) /\
  is_Some (aria_invalid (snd (valid env el w)) !! identity el).
Proof.
  intros Hin Hprop. unfold ValidityStatePrototype in Hin.
  apply elem_of_app in Hin as [Hin|Hin].
  - apply list_elem_of_fmap in Hin as ([p func] & Eq & Hin).
    injection Eq as -> ->.
    pose proof (checker_well_behaved _ _ Hin) as Hwb.
    split; [|split].
    + destruct (frame _ Hwb el w) as [->|[msg ->]].
      * unfold same_but_message. tauto.
      * unfold same_but_message. repeat (split; [reflexivity|]).
        intros id Hid. rewrite messages_set_message.
        now apply lookup_insert_ne.
    + apply (quiet _ Hwb).
    + rewrite valid_eq, valid_body_unfold. cbn [snd].
      destruct (is_validation_candidate env el).
      * destruct (valid_loop_cases (validity_state_checkers env) el
                    (invalidClass env el) (validClass env el)
                    (mark_validated env el w) checkers_well_behaved)
          as [[_ ->]|(? & ? & ? & ? & _ & _ & _ & ->)];
          unfold mark_valid, mark_invalid, bind; simpl;
          rewrite lookup_insert_eq; eauto.
      * unfold mark_valid, bind. simpl. rewrite lookup_insert_eq. eauto.
  - apply list_elem_of_singleton in Hin. congruence.
Qed.

Lemma call_validators_fail (validators : list Validator) el :
  fst (call_validators validators el) = false <->
  exists v, v ∈ validators /\ v el = Some false.
Proof.
  split.
  - intros Hf. destruct (decide (Exists (fun v => v el = Some false) validators))
      as [Hex|Hno].
    + apply Exists_exists in Hex. exact Hex.
    + exfalso. apply not_Exists_Forall in Hno; [|intros v; apply _].
      rewrite Forall_forall in Hno.
      assert (fst (call_validators validators el) = true)
        by (apply call_validators_pass; exact Hno).
      congruence.
  - intros (v & Hin & Hv).
    destruct (fst (call_validators validators el)) eqn:E; [|reflexivity].
    exfalso. rewrite call_validators_pass in E. now apply (E v).
Qed.

Lemma call_validators_count_pass (validators : list Validator) el :
  (forall v, v ∈ validators -> v el <> Some false) ->
  snd (call_validators validators el) = length validators.
Proof.
  induction validators as [|v vs IH]; intros Hall; simpl; [reflexivity|].
  assert (v el <> Some false) as Hv by (apply Hall; left).
  assert (snd (call_validators vs el) = length vs) as Hvs
    by (apply IH; intros u Hu; apply Hall; now right).
  destruct (v el) as [[|]|]; try congruence;
    destruct (call_validators vs el); simpl in *; congruence.
Qed.

Lemma call_validators_count_fail (pre : list Validator) v post el :
  (forall u, u ∈ pre -> u el <> Some false) ->
  v el = Some false ->
  snd (call_validators (pre ++ v :: post) el) = S (length pre).
Proof.
  induction pre as [|u us IH]; intros Hall Hv; simpl.
  - now rewrite Hv.
  - assert (u el <> Some false) as Hu by (apply Hall; left).
    assert (snd (call_validators (us ++ v :: post) el) = S (length us)) as Hus
      by (apply IH; [intros x Hx; apply Hall; now right | assumption]).
    destruct (u el) as [[|]|]; try congruence;
      destruct (call_validators (us ++ v :: post) el); simpl in *; congruence.
Qed.

(** C5. [customError] reports a violation exactly when (a) some registered
    validator answers an explicit [false], or (b) none does and the message
    stored for the control is non-empty and carries the custom marker.
    The validators are called in registration order up to and including the
    first that answers [false] ([undefined] counts as no opinion), and all
    of them when none does; the checker itself writes nothing. *)
Theorem customError_iff (el : Element) (w : World) :
  (fst (customError env el w) = true <->
   (exists v, v ∈ Registry_get env el /\ v el = Some false) \/
   ((forall v, v ∈ Registry_get env el -> v el <> Some false) /\
    exists msg, messages w !! identity el = Some msg /\
                text msg <> "" /\ is_custom msg = true)) /\
  (forall pre v post,
     Registry_get env el = (pre ++ v :: post)%list ->
     (forall u, u ∈ pre -> u el <> Some false) ->
     v el = Some false ->
     snd (call_validators (Registry_get env el) el) = S (length pre)) /\
  ((forall v, v ∈ Registry_get env el -> v el <> Some false) ->
   snd (call_validators (Registry_get env el) el)
   = length (Registry_get env el)) /\
  snd (customError env el w) = w.
Proof.
  rewrite customError_eq. cbn [fst snd].
  split; [|split; [|split]].
  - destruct (fst (call_validators (Registry_get env el) el)) eqn:Ev; simpl.
    + pose proof (proj1 (call_validators_pass _ _) Ev) as Hpass.
      unfold pending_custom. split.
      * destruct (messages w !! identity el) as [msg|]; [|discriminate].
        intros [Ht Hc]%andb_true_iff. right. split; [exact Hpass|].
        exists msg. split; [reflexivity|]. split; [|exact Hc].
        intros Hempty. rewrite Hempty in Ht. discriminate.
      * intros [(v & Hin & Hv)|(_ & msg & -> & Ht & ->)].
        -- exfalso. now apply (Hpass v).
        -- rewrite andb_true_r. apply negb_true_iff.
           now apply String.eqb_neq.
    + split; [|reflexivity]. intros _. left.
      now apply call_validators_fail.
  - intros pre v post -> Hpre Hv. now apply call_validators_count_fail.
  - apply call_validators_count_pass.
  - reflexivity.
Qed.

End Properties.

(** ** The constructor *)

Lemma ValidityState_cached el instance w :
  cache w !! identity el = Some instance ->
  ValidityState (ArgElement el) w = (Normal instance, w).
Proof.
  intros Hc. unfold ValidityState, bind, cache_get, ret. now rewrite Hc.
Qed.

Lemma new_ValidityState_cached el instance w :
  cache w !! identity el = Some instance ->
  new_ValidityState (ArgElement el) w = (Normal instance, snd (allocate w)).
Proof.
  intros Hc. unfold new_ValidityState, ValidityState_body, bind, cache_get, ret.
  simpl. now rewrite Hc.
Qed.

Lemma new_ValidityState_fresh el w :
  cache w !! identity el = None ->
  new_ValidityState (ArgElement el) w =
  (Normal (next_instance w),
   snd ((set_element (next_instance w) el >> cache_set el (next_instance w))
          (snd (allocate w)))).
Proof.
  intros Hc. unfold new_ValidityState, ValidityState_body, bind, cache_get, ret.
  simpl. now rewrite Hc.
Qed.

Lemma ValidityState_fresh el w :
  cache w !! identity el = None ->
  ValidityState (ArgElement el) w = new_ValidityState (ArgElement el) w.
Proof.
  intros Hc. unfold ValidityState, bind, cache_get. now rewrite Hc.
Qed.

Lemma coherent_empty : coherent empty_world.
Proof.
  split; unfold state_of; simpl.
  - intros r inst H. now rewrite lookup_empty in H.
  - intros r el H. now rewrite lookup_empty in H.
  - intros id r H. now rewrite lookup_empty in H.
Qed.

Lemma coherent_allocate w : coherent w -> coherent (snd (allocate w)).
Proof.
  intros [Hb Hc Hd]. split; unfold state_of in *; simpl.
  - intros r inst H. apply lookup_insert_Some in H as [[<- _]|[_ H]]; [lia|].
    apply Hb in H. lia.
  - intros r el H. apply lookup_insert_Some in H as [[_ H]|[_ H]];
      [discriminate | now apply Hc].
  - intros id r H. destruct (Hd id r H) as (el & Hs & Hid).
    exists el. split; [|assumption].
    rewrite lookup_insert_ne; [assumption|].
    apply Hb in Hs. lia.
Qed.

Lemma coherent_bind_fresh el w :
  coherent w ->
  cache w !! identity el = None ->
  coherent (snd ((set_element (next_instance w) el >>
                  cache_set el (next_instance w)) (snd (allocate w)))).
Proof.
  intros [Hb Hc Hd] Hnone. split; unfold state_of in *; simpl.
  - intros r inst H. apply lookup_insert_Some in H as [[<- _]|[_ H]]; [lia|].
    apply lookup_insert_Some in H as [[<- _]|[_ H]]; [lia|].
    apply Hb in H. lia.
  - intros r e H. apply lookup_insert_Some in H as [[<- H]|[Hne H]].
    + injection H as <-. apply lookup_insert_eq.
    + rewrite lookup_insert_ne in H by assumption.
      pose proof (Hc r e H) as Hr.
      rewrite lookup_insert_ne; [assumption|]. congruence.
  - intros id r H. apply lookup_insert_Some in H as [[<- <-]|[Hne H]].
    + exists el. split; [apply lookup_insert_eq|reflexivity].
    + destruct (Hd id r H) as (e & Hs & Hid). exists e. split; [|assumption].
      assert (r <> next_instance w) by (apply Hb in Hs; lia).
      now rewrite !lookup_insert_ne by congruence.
Qed.

(** Invoking the constructor on a control returns the instance that the
    cache holds for it afterwards, and keeps the world coherent. *)
Lemma invoke_element how el w :
  coherent w ->
  exists instance,
    fst (invoke how (ArgElement el) w) = Normal instance /\
    cache (snd (invoke how (ArgElement el) w)) !! identity el = Some instance /\
    coherent (snd (invoke how (ArgElement el) w)).
Proof.
  intros Hw. destruct (cache w !! identity el) as [instance|] eqn:Hc.
  - exists instance. destruct how; cbn [invoke].
    + rewrite (new_ValidityState_cached _ _ _ Hc). cbn [fst snd].
      split; [reflexivity|]. split; [assumption|].
      now apply coherent_allocate.
    + rewrite (ValidityState_cached _ _ _ Hc). auto.
  - exists (next_instance w).
    assert (invoke how (ArgElement el) w = new_ValidityState (ArgElement el) w)
      as -> by (destruct how; [reflexivity | now apply ValidityState_fresh]).
    rewrite (new_ValidityState_fresh _ _ Hc). cbn [fst snd].
    split; [reflexivity|]. split.
    + unfold bind, set_element, cache_set. simpl. apply lookup_insert_eq.
    + now apply coherent_bind_fresh.
Qed.

(** C7. Two invocations of the constructor on the same control, with or
    without [new], return the same instance, and afterwards every instance
    that is bound to a control of that identity is this one. *)
Theorem ValidityState_single_instance
    (how1 how2 : Invocation) (el : Element) (w : World) :
  coherent w ->
  exists instance,
    fst (invoke how1 (ArgElement el) w) = Normal instance /\
    fst (invoke how2 (ArgElement el) (snd (invoke how1 (ArgElement el) w)))
    = Normal instance /\
    (exists bound,
       state_of (snd (invoke how2 (ArgElement el)
                        (snd (invoke how1 (ArgElement el) w))))
         instance bound /\
       identity bound = identity el) /\
    forall reference other,
      state_of (snd (invoke how2 (ArgElement el)
                       (snd (invoke how1 (ArgElement el) w))))
        reference other ->
      identity other = identity el ->
      reference = instance.
Proof.
  intros Hw.
  destruct (invoke_element how1 el w Hw) as (r1 & E1 & C1 & Hw1).
  destruct (invoke_element how2 el _ Hw1) as (r2 & E2 & C2 & Hw2).
  assert (r2 = r1) as ->.
  { destruct how2; cbn [invoke] in E2.
    - rewrite (new_ValidityState_cached _ _ _ C1) in E2. simpl in E2. congruence.
    - rewrite (ValidityState_cached _ _ _ C1) in E2. simpl in E2. congruence. }
  exists r1. split; [assumption|]. split; [assumption|]. split.
  - apply (cached_is_bound _ Hw2 _ _ C2).
  - intros reference other Hs Hid.
    apply (bound_is_cached _ Hw2) in Hs. rewrite Hid in Hs. congruence.
Qed.

(** C8. Whatever is passed that is not an HTMLElement, the constructor,
    called with or without [new], throws the error "cannot create a
    ValidityState for a non-element"; the cache is left as it was and no
    instance gets bound to anything. *)
Theorem non_element_rejected (how : Invocation) (arg : Argument) (w : World) :
  (forall el, arg <> ArgElement el) ->
  fst (invoke how arg w)
  = Throw "cannot create a ValidityState for a non-element" /\
  cache (snd (invoke how arg w)) = cache w /\
  forall reference el,
    state_of (snd (invoke how arg w)) reference el -> state_of w reference el.
Proof.
  intros Hne.
  destruct arg as [| v | r | el]; [| | |now destruct (Hne el)];
    destruct how; simpl;
    (split; [reflexivity|]; split; [reflexivity|]);
    unfold state_of; simpl; intros reference el H; try assumption;
    apply lookup_insert_Some in H as [[_ H]|[_ H]];
    first [discriminate | assumption].
Qed.

(** ** The two checkers that cite a bound of the wrong attribute *)

(** Whatever the collaborators, the message of [rangeUnderflow] is built
    from the [max] attribute. *)
Lemma rangeUnderflow_message (env : Collaborators) (el : Element) (w : World) :
  test_min env el = false ->
  exists key (convert : js_value -> string -> js_value),
    rangeUnderflow env el w =
    (true,
     set_message el
       (sprintf env (translate env key)
          [convert (attr_value (getAttribute el "max")) (get_type env el)])
       w).
Proof.
  intros Hmin. unfold rangeUnderflow, when, bind, ret. rewrite Hmin. simpl.
  destruct (is_date_type (get_type env el)); [|destruct (get_type env el =? "time")];
    eexists _, _; reflexivity.
Qed.

(** Whatever the collaborators, the first argument of the message of
    [tooShort] is the [maxlength] attribute. *)
Lemma tooShort_message (env : Collaborators) (el : Element) (w : World) :
  test_minlength env el = false ->
  tooShort env el w =
  (true,
   set_message el
     (sprintf env
        (translate env "Please lengthen this text to %l characters or more (you are currently using %l characters).")
        [attr_value (getAttribute el "maxlength");
         JsNumber (unicode_string_length env (value el))])
     w).
Proof.
  intros Hmin. unfold tooShort, when, bind, ret. now rewrite Hmin.
Qed.

(** C2. On a number input with [min="5"], [max="10"] and the value [3],
    which violates the [min] constraint, [rangeUnderflow] reports the
    violation and stores a message that renders the [max] bound, 10, where
    the declared [min] bound, 5, belongs. *)
Theorem rangeUnderflow_renders_max :
  getAttribute number_input "min" = Some "5" /\
  getAttribute number_input "max" = Some "10" /\
  test_min sample number_input = false /\
  rangeUnderflow sample number_input empty_world =
  (true,
   set_message number_input "Please select a value that is no less than 10."
     empty_world).
Proof. repeat split; vm_compute; reflexivity. Qed.

(** C3. On a text input with [minlength="5"], [maxlength="20"] and the
    three-character value [abc], which violates the [minlength] constraint,
    [tooShort] reports the violation and stores a message that cites the
    [maxlength] bound, 20, where the declared [minlength] bound, 5,
    belongs; the current length, 3, is cited as it should be. *)
Theorem tooShort_cites_maxlength :
  getAttribute short_text_input "minlength" = Some "5" /\
  getAttribute short_text_input "maxlength" = Some "20" /\
  test_minlength sample short_text_input = false /\
  tooShort sample short_text_input empty_world =
  (true,
   set_message short_text_input
     "Please lengthen this text to 20 characters or more (you are currently using 3 characters)."
     empty_world).
Proof. repeat split; vm_compute; reflexivity. Qed.

(** ** The properties on concrete controls *)

(** With both the [required] and the [maxlength] predicate failing on a
    candidate control, the read of [valid] stops at [tooLong]: the message
    left behind is the one of [tooLong] and differs from the one
    [valueMissing] would have written. *)
Lemma valueMissing_first_counterexample :
  test_required sample_both_failing long_text_input = false /\
  test_maxlength sample_both_failing long_text_input = false /\
  fst (valid_body sample_both_failing long_text_input empty_world)
  = Some "tooLong" /\
  messages (snd (valid sample_both_failing long_text_input empty_world))
    !! identity long_text_input
  = messages (snd (tooLong sample_both_failing long_text_input empty_world))
      !! identity long_text_input /\
  messages (snd (valid sample_both_failing long_text_input empty_world))
    !! identity long_text_input
  <> messages (snd (valueMissing sample_both_failing long_text_input empty_world))
       !! identity long_text_input.
Proof.
  repeat split; try (vm_compute; reflexivity).
  vm_compute. discriminate.
Qed.

Lemma short_circuit_at_tooLong_witness :
  is_validation_candidate sample_both_failing long_text_input = true /\
  test_required sample_both_failing long_text_input = false /\
  test_maxlength sample_both_failing long_text_input = false /\
  all_pass (take 6 (validity_state_checkers sample_both_failing))
    long_text_input empty_world /\
  fst (valid sample_both_failing long_text_input empty_world) = false /\
  fst (valid_body sample_both_failing long_text_input empty_world)
  = Some "tooLong" /\
  messages (snd (valid sample_both_failing long_text_input empty_world))
    !! identity long_text_input
  = Some (tooLong_message sample_both_failing long_text_input).
Proof.
  assert (all_pass (take 6 (validity_state_checkers sample_both_failing))
            long_text_input empty_world) as Hsix.
  { intros prop checker Hin. simpl in Hin.
    repeat (apply elem_of_cons in Hin as [E|Hin];
            [injection E as -> ->; reflexivity|]).
    inversion Hin. }
  split; [reflexivity|]. split; [reflexivity|]. split; [reflexivity|].
  split; [exact Hsix|].
  destruct (short_circuit_at_tooLong sample_both_failing long_text_input
              empty_world eq_refl eq_refl eq_refl) as (Hfalse & _ & Hstop).
  split; [exact Hfalse|]. exact (Hstop Hsix).
Defined.

Lemma exempt_control_valid_and_cleared_witness :
  is_validation_candidate sample disabled_input = false /\
  messages stale_world !! identity disabled_input <> None /\
  test_required sample disabled_input = false /\
  fst (valid sample disabled_input stale_world) = true /\
  messages (snd (valid sample disabled_input stale_world))
    !! identity disabled_input = None.
Proof.
  split; [reflexivity|]. split; [vm_compute; discriminate|].
  split; [reflexivity|].
  apply (exempt_control_valid_and_cleared sample disabled_input stale_world).
  reflexivity.
Defined.

Lemma facet_read_touches_only_message_witness :
  ("tooLong", tooLong sample) ∈ ValidityStatePrototype sample /\
  "tooLong" <> "valid" /\
  same_but_message long_text_input empty_world
    (snd (tooLong sample long_text_input empty_world)) /\
  (fst (tooLong sample long_text_input empty_world) = false ->
   snd (tooLong sample long_text_input empty_world) = empty_world) /\
  is_Some (aria_invalid (snd (valid sample long_text_input empty_world))
             !! identity long_text_input).
Proof.
  assert (("tooLong", tooLong sample) ∈ ValidityStatePrototype sample) as Hin.
  { unfold ValidityStatePrototype, validity_state_checkers. simpl.
    do 6 apply list_elem_of_further. apply list_elem_of_here. }
  assert ("tooLong" <> "valid") as Hne by discriminate.
  split; [exact Hin|]. split; [exact Hne|].
  exact (facet_read_touches_only_message sample "tooLong" (tooLong sample)
           long_text_input empty_world Hin Hne).
Defined.

Lemma ValidityState_single_instance_witness :
  coherent empty_world /\
  exists instance,
    fst (invoke WithoutNew (ArgElement number_input) empty_world)
    = Normal instance /\
    fst (invoke WithNew (ArgElement number_input)
           (snd (invoke WithoutNew (ArgElement number_input) empty_world)))
    = Normal instance /\
    (exists bound,
       state_of (snd (invoke WithNew (ArgElement number_input)
                        (snd (invoke WithoutNew (ArgElement number_input)
                                empty_world))))
         instance bound /\
       identity bound = identity number_input) /\
    forall reference other,
      state_of (snd (invoke WithNew (ArgElement number_input)
                       (snd (invoke WithoutNew (ArgElement number_input)
                               empty_world))))
        reference other ->
      identity other = identity number_input ->
      reference = instance.
Proof.
  split; [exact coherent_empty|].
  exact (ValidityState_single_instance WithoutNew WithNew number_input
           empty_world coherent_empty).
Defined.

Lemma non_element_rejected_witness :
  (forall el, ArgValue (JsString "email") <> ArgElement el) /\
  fst (invoke WithoutNew (ArgValue (JsString "email")) empty_world)
  = Throw "cannot create a ValidityState for a non-element" /\
  cache (snd (invoke WithoutNew (ArgValue (JsString "email")) empty_world))
  = cache empty_world /\
  forall reference el,
    state_of (snd (invoke WithoutNew (ArgValue (JsString "email")) empty_world))
      reference el ->
    state_of empty_world reference el.
Proof.
  assert (forall el, ArgValue (JsString "email") <> ArgElement el) as Hne
    by (intros el; discriminate).
  split; [exact Hne|].
  exact (non_element_rejected WithoutNew (ArgValue (JsString "email"))
           empty_world Hne).
Defined.

(** ** Class lists *)

Lemma elem_of_add_token (x token : string) (old : list string) :
  x ∈ add_token token old <-> x = token \/ x ∈ old.
Proof.
  unfold add_token. case_bool_decide as Hin.
  - split; [now right|]. intros [E|H]; [now rewrite E | assumption].
  - rewrite elem_of_app, list_elem_of_singleton. tauto.
Qed.

Lemma elem_of_remove_token (x token : string) (old : list string) :
  x ∈ remove_token token old <-> x <> token /\ x ∈ old.
Proof.
  unfold remove_token.
  exact (list_elem_of_filter (fun t => t <> token) old x).
Qed.

Lemma add_token_present (token : string) (old : list string) :
  token ∈ old -> add_token token old = old.
Proof. intros H. unfold add_token. now rewrite bool_decide_eq_true_2. Qed.

Lemma add_token_absent (token : string) (old : list string) :
  token ∉ old -> add_token token old = (old ++ [token])%list.
Proof. intros H. unfold add_token. now rewrite bool_decide_eq_false_2. Qed.

Lemma remove_token_absent (token : string) (old : list string) :
  token ∉ old -> remove_token token old = old.
Proof.
  unfold remove_token. induction old as [|t ts IH]; intros H; [reflexivity|].
  rewrite not_elem_of_cons in H. destruct H as [Hne Hts].
  rewrite filter_cons_True by congruence. now rewrite IH.
Qed.

Lemma remove_token_snoc (token : string) (old : list string) :
  remove_token token (old ++ [token]) = remove_token token old.
Proof.
  unfold remove_token. rewrite filter_app.
  rewrite (filter_singleton_False (fun t => t <> token) token []).
  - apply app_nil_r.
  - intros H. now apply H.
Qed.

Lemma remove_token_gone (token : string) (old : list string) :
  token ∉ remove_token token old.
Proof. rewrite elem_of_remove_token. tauto. Qed.

(** Marking a control invalid twice is the same as marking it once. *)
Lemma invalid_tokens_idempotent (vd ic vc : string) (old : list string) :
  let mark l := remove_token vc (add_token ic (add_token vd l)) in
  mark (mark old) = mark old.
Proof.
  intros mark. set (l := mark old).
  assert (vc ∉ l) as Hvc by apply remove_token_gone.
  assert (vd <> vc -> vd ∈ l) as Hvd.
  { intros Hne. unfold l, mark.
    rewrite elem_of_remove_token, !elem_of_add_token. tauto. }
  assert (ic <> vc -> ic ∈ l) as Hic.
  { intros Hne. unfold l, mark.
    rewrite elem_of_remove_token, !elem_of_add_token. tauto. }
  unfold mark at 1. fold l.
  destruct (decide (vd = vc)) as [->|Hd].
  - rewrite (add_token_absent vc l Hvc).
    rewrite add_token_present.
    + rewrite remove_token_snoc. now apply remove_token_absent.
    + rewrite elem_of_app, list_elem_of_singleton.
      destruct (decide (ic = vc)); auto.
  - rewrite (add_token_present vd l) by auto.
    destruct (decide (ic = vc)) as [->|Hi].
    + rewrite (add_token_absent vc l Hvc), remove_token_snoc.
      now apply remove_token_absent.
    + rewrite (add_token_present ic l) by auto. now apply remove_token_absent.
Qed.

(** Marking a control valid twice is the same as marking it once. *)
Lemma valid_tokens_idempotent (vd ic vc : string) (old : list string) :
  let mark l := add_token vc (remove_token ic (add_token vd l)) in
  mark (mark old) = mark old.
Proof.
  intros mark. set (l := mark old).
  assert (vc ∈ l) as Hvc.
  { unfold l, mark. rewrite elem_of_add_token. now left. }
  assert (ic <> vc -> ic ∉ l) as Hic.
  { intros Hne. unfold l, mark.
    rewrite elem_of_add_token, elem_of_remove_token. tauto. }
  unfold mark at 1. fold l.
  destruct (decide (ic = vc)) as [->|Hi].
  - rewrite (add_token_present vd l).
    + unfold l, mark.
      set (r := remove_token vc (add_token vd old)).
      assert (vc ∉ r) as Hr by apply remove_token_gone.
      rewrite (add_token_absent vc r Hr), remove_token_snoc.
      rewrite (remove_token_absent vc r Hr). now apply add_token_absent.
    + destruct (decide (vd = vc)) as [->|Hd]; [assumption|].
      unfold l, mark.
      rewrite elem_of_add_token, elem_of_remove_token, elem_of_add_token.
      tauto.
  - specialize (Hic Hi).
    destruct (decide (vd = ic)) as [->|Hd].
    + rewrite (add_token_absent ic l Hic), remove_token_snoc.
      rewrite (remove_token_absent ic l Hic). now apply add_token_present.
    + rewrite (add_token_present vd l).
      * rewrite (remove_token_absent ic l Hic). now apply add_token_present.
      * unfold l, mark.
        rewrite elem_of_add_token, elem_of_remove_token, elem_of_add_token.
        tauto.
Qed.

(** ** The world after a read *)

Lemma world_eq (w w' : World) :
  messages w' = messages w ->
  classList w' = classList w ->
  aria_invalid w' = aria_invalid w ->
  cache w' = cache w ->
  instances w' = instances w ->
  next_instance w' = next_instance w ->
  w' = w.
Proof. destruct w, w'. simpl. now intros -> -> -> -> -> ->. Qed.

Section Further.

Context (env : Collaborators).

Lemma classList_mark_validated el w :
  classList (mark_validated env el w) =
  <[identity el := add_token (validatedClass env el) (tokens el w)]> (classList w).
Proof. reflexivity. Qed.

Lemma classList_add_eq el token w :
  classList (snd (classList_add el token w)) =
  <[identity el := add_token token (tokens el w)]> (classList w).
Proof. reflexivity. Qed.

Lemma classList_remove_eq el token w :
  classList (snd (classList_remove el token w)) =
  <[identity el := remove_token token (tokens el w)]> (classList w).
Proof. reflexivity. Qed.

Lemma tokens_add el token w :
  tokens el (snd (classList_add el token w)) = add_token token (tokens el w).
Proof.
  unfold tokens at 1. rewrite classList_add_eq. now rewrite lookup_insert_eq.
Qed.

Lemma tokens_remove el token w :
  tokens el (snd (classList_remove el token w))
  = remove_token token (tokens el w).
Proof.
  unfold tokens at 1. rewrite classList_remove_eq. now rewrite lookup_insert_eq.
Qed.

Lemma classList_mark_invalid el ic vc w :
  classList (mark_invalid el ic vc w) =
  <[identity el := remove_token vc (add_token ic (tokens el w))]> (classList w).
Proof.
  change (mark_invalid el ic vc w) with
    (snd (set_aria_invalid el "true"
            (snd (classList_remove el vc (snd (classList_add el ic w)))))).
  change (classList (snd (set_aria_invalid el "true" ?x))) with (classList x).
  rewrite classList_remove_eq, tokens_add, classList_add_eq.
  apply insert_insert_eq.
Qed.

Lemma classList_mark_valid el w :
  classList (mark_valid env el w) =
  <[identity el := add_token (validClass env el)
                     (remove_token (invalidClass env el) (tokens el w))]>
    (classList w).
Proof.
  change (mark_valid env el w) with
    (snd (set_aria_invalid el "false"
            (snd (classList_add el (validClass env el)
                    (snd (classList_remove el (invalidClass env el)
                            (snd (message_store_delete el w)))))))).
  change (classList (snd (set_aria_invalid el "false" ?x))) with (classList x).
  rewrite classList_add_eq, tokens_remove, classList_remove_eq.
  apply insert_insert_eq.
Qed.

Lemma aria_mark_invalid el ic vc w :
  aria_invalid (mark_invalid el ic vc w) =
  <[identity el := "true"]> (aria_invalid w).
Proof. reflexivity. Qed.

Lemma aria_mark_valid el w :
  aria_invalid (mark_valid env el w) =
  <[identity el := "false"]> (aria_invalid w).
Proof. reflexivity. Qed.

Lemma tokens_insert el l w w' :
  classList w' = <[identity el := l]> (classList w) -> tokens el w' = l.
Proof. intros H. unfold tokens. now rewrite H, lookup_insert_eq. Qed.

(** A well-behaved checker leaves everything but the messages alone. *)
Lemma checker_keeps_page checker el w :
  well_behaved checker ->
  classList (snd (checker el w)) = classList w /\
  aria_invalid (snd (checker el w)) = aria_invalid w /\
  cache (snd (checker el w)) = cache w /\
  instances (snd (checker el w)) = instances w /\
  next_instance (snd (checker el w)) = next_instance w /\
  forall id, id <> identity el ->
    messages (snd (checker el w)) !! id = messages w !! id.
Proof.
  intros Hwb. destruct (frame _ Hwb el w) as [->|[msg ->]].
  - tauto.
  - repeat (split; [reflexivity|]). intros id Hid.
    rewrite messages_set_message. now apply lookup_insert_ne.
Qed.

(** Each checker is either [customError] or a structural one. *)
Lemma checker_kind prop checker :
  (prop, checker) ∈ validity_state_checkers env ->
  structural checker \/ checker = customError env.
Proof.
  unfold validity_state_checkers. intros Hin.
  repeat (apply elem_of_cons in Hin as [E|Hin];
          [ injection E as _ ->;
            first [ right; reflexivity
                  | left;
                    auto using badInput_structural, patternMismatch_structural,
                      rangeOverflow_structural, rangeUnderflow_structural,
                      stepMismatch_structural, tooLong_structural,
                      tooShort_structural, typeMismatch_structural,
                      valueMissing_structural ] | ]).
  inversion Hin.
Qed.

(** What a checker does to the message store depends on the message store
    only. *)
Lemma checker_effect_reads_messages prop checker el w w' :
  (prop, checker) ∈ validity_state_checkers env ->
  messages w' = messages w ->
  messages (snd (checker el w')) = messages (snd (checker el w)).
Proof.
  intros Hin Hm. destruct (checker_kind _ _ Hin) as [Hs| ->].
  - destruct (Hs el) as (invalid & msg & E). rewrite !E.
    destruct invalid; cbn [snd]; [|assumption].
    now rewrite !messages_set_message, Hm.
  - now rewrite !customError_eq.
Qed.

(** The two outcomes of a read, with the world each leaves. *)
Lemma valid_outcome el w :
  (fst (valid env el w) = true /\
   (is_validation_candidate env el = false \/
    all_pass (validity_state_checkers env) el w) /\
   snd (valid env el w) = mark_valid env el (mark_validated env el w))
  \/
  (fst (valid env el w) = false /\
   is_validation_candidate env el = true /\
   exists pre prop checker post,
     validity_state_checkers env = (pre ++ (prop, checker) :: post)%list /\
     all_pass pre el w /\
     fst (checker el w) = true /\
     fst (checker el (mark_validated env el w)) = true /\
     fst (valid_body env el w) = Some prop /\
     snd (valid env el w) =
     mark_invalid el (invalidClass env el) (validClass env el)
       (snd (checker el (mark_validated env el w)))).
Proof.
  rewrite valid_eq.
  destruct (valid_body_cases env el w)
    as [[H E]|(Hc & pre & prop & checker & post & Ecs & Hall & Hf & Hf0 & E)];
    rewrite E; cbn [fst snd].
  - left. auto.
  - right. split; [reflexivity|]. split; [assumption|].
    exists pre, prop, checker, post. auto 10.
Qed.

(** Everything a read of [valid] leaves behind. *)
Lemma valid_after el w :
  cache (snd (valid env el w)) = cache w /\
  instances (snd (valid env el w)) = instances w /\
  next_instance (snd (valid env el w)) = next_instance w /\
  classList (snd (valid env el w)) =
    <[identity el :=
        if fst (valid env el w)
        then add_token (validClass env el)
               (remove_token (invalidClass env el)
                  (add_token (validatedClass env el) (tokens el w)))
        else remove_token (validClass env el)
               (add_token (invalidClass env el)
                  (add_token (validatedClass env el) (tokens el w)))]>
      (classList w) /\
  aria_invalid (snd (valid env el w)) =
    <[identity el := if fst (valid env el w) then "false" else "true"]>
      (aria_invalid w) /\
  ((fst (valid env el w) = true /\
    (is_validation_candidate env el = false \/
     all_pass (validity_state_checkers env) el w) /\
    messages (snd (valid env el w)) = delete (identity el) (messages w))
   \/
   (fst (valid env el w) = false /\
    is_validation_candidate env el = true /\
    exists pre prop checker post,
      validity_state_checkers env = (pre ++ (prop, checker) :: post)%list /\
      all_pass pre el w /\
      fst (checker el w) = true /\
      fst (valid_body env el w) = Some prop /\
      messages (snd (valid env el w)) = messages (snd (checker el w)))).
Proof.
  destruct (valid_outcome el w)
    as [(Hb & H & ->)
       |(Hb & Hc & pre & prop & checker & post & Ecs & Hall & Hf & Hf0 & Hp & ->)];
    rewrite Hb.
  - repeat (split; [reflexivity|]). split.
    { rewrite classList_mark_valid.
      rewrite (tokens_insert el _ w _ (classList_mark_validated el w)).
      rewrite classList_mark_validated. apply insert_insert_eq. }
    split.
    { rewrite aria_mark_valid. reflexivity. }
    left. auto.
  - assert ((prop, checker) ∈ validity_state_checkers env) as Hin.
    { rewrite Ecs. apply elem_of_app. right. left. }
    pose proof (checker_well_behaved env _ _ Hin) as Hwb.
    destruct (checker_keeps_page checker el (mark_validated env el w) Hwb)
      as (Hcl & Har & Hca & Hi & Hn & _).
    set (w0 := mark_validated env el w) in *.
    set (w1 := snd (checker el w0)) in *.
    split; [exact Hca|]. split; [exact Hi|]. split; [exact Hn|]. split.
    { rewrite classList_mark_invalid.
      assert (tokens el w1 =
              add_token (validatedClass env el) (tokens el w)) as ->.
      { apply (tokens_insert el _ w). rewrite Hcl. reflexivity. }
      rewrite Hcl. unfold w0. rewrite classList_mark_validated.
      apply insert_insert_eq. }
    split.
    { rewrite aria_mark_invalid, Har. reflexivity. }
    right. split; [reflexivity|]. split; [assumption|].
    exists pre, prop, checker, post.
    repeat (split; [assumption|]).
    rewrite messages_mark_invalid. unfold w1.
    now apply (checker_effect_reads_messages prop).
Qed.

(** The first failing checker of a list is determined by the world. *)
Lemma first_failure_unique
    (pre pre' post post' : list (string * (Element -> M bool)))
    (entry entry' : string * (Element -> M bool)) el w :
  (pre ++ entry :: post = pre' ++ entry' :: post')%list ->
  all_pass pre el w -> fst (snd entry el w) = true ->
  all_pass pre' el w -> fst (snd entry' el w) = true ->
  pre = pre' /\ entry = entry'.
Proof.
  revert pre'. induction pre as [|x xs IH]; intros [|y ys] E Hp Hf Hp' Hf'.
  - now injection E as ->.
  - exfalso. injection E as <- _. destruct entry as [p c].
    specialize (Hp' p c). simpl in Hf. rewrite Hf in Hp'.
    enough (true = false) by discriminate. apply Hp'. left.
  - exfalso. injection E as -> _. destruct entry' as [p c].
    specialize (Hp p c). simpl in Hf'. rewrite Hf' in Hp.
    enough (true = false) by discriminate. apply Hp. left.
  - injection E as -> E. destruct y as [p c].
    apply all_pass_cons in Hp as [_ Hp]. apply all_pass_cons in Hp' as [_ Hp'].
    destruct (IH ys E Hp Hf Hp' Hf') as [-> ->]. auto.
Qed.

(** X1. A second read of [valid] right after a first one returns the same
    boolean and leaves the whole world (messages, class lists and
    [aria-invalid] flags included) exactly as the first read left it. *)
Theorem valid_again (el : Element) (w : World) :
  valid env el (snd (valid env el w))
  = (fst (valid env el w), snd (valid env el w)).
Proof.
  destruct (valid_after el w)
    as (Hca & Hi & Hn & Hcl & Har & Hm).
  set (b1 := fst (valid env el w)) in *.
  set (w1 := snd (valid env el w)) in *.
  destruct (valid_after el w1)
    as (Hca2 & Hi2 & Hn2 & Hcl2 & Har2 & Hm2).
  set (b2 := fst (valid env el w1)) in *.
  set (w2 := snd (valid env el w1)) in *.
  assert (b2 = b1 /\ messages w2 = messages w1) as [Hb Hmsg].
  { destruct Hm as [(Hb1 & Hpass & Hm)
                   |(Hb1 & Hc & pre & prop & checker & post & Ecs & Hall & Hf & _ & Hm)].
    - assert (messages w1 !! identity el = None) as Hnone
        by (rewrite Hm; apply lookup_delete_eq).
      destruct Hm2 as [(Hb2 & _ & Hm2)
                      |(_ & Hc & pre & prop & checker & post & Ecs & _ & Hf & _)].
      + split; [congruence|]. rewrite Hm2, Hm. apply delete_delete_eq.
      + exfalso. destruct Hpass as [Hn'|Hall]; [congruence|].
        assert ((prop, checker) ∈ validity_state_checkers env) as Hin
          by (rewrite Ecs; apply elem_of_app; right; left).
        pose proof (checker_well_behaved env _ _ Hin) as Hwb.
        rewrite (pass_persists _ Hwb el w w1 (Hall _ _ Hin)) in Hf;
          [discriminate|].
        right. now rewrite Hnone.
    - assert ((prop, checker) ∈ validity_state_checkers env) as Hin
        by (rewrite Ecs; apply elem_of_app; right; left).
      pose proof (checker_well_behaved env _ _ Hin) as Hwb.
      destruct (fail_persists _ Hwb el w w1 Hf) as [Hf1 Hsame];
        [now rewrite Hm|].
      assert (messages (snd (checker el w1)) = messages w1) as Hkeep.
      { destruct (frame _ Hwb el w1) as [->|[msg Emsg]]; [reflexivity|].
        rewrite Emsg in *. rewrite messages_set_message in *.
        apply insert_id. rewrite <- Hm in Hsame. rewrite <- Hsame.
        apply lookup_insert_eq. }
      assert (all_pass pre el w1) as Hall1.
      { intros p c Hpc.
        assert (well_behaved c) as Hc'.
        { apply (checker_well_behaved env p). rewrite Ecs.
          apply elem_of_app. now left. }
        apply (pass_persists _ Hc' el w w1); [now apply (Hall p)|].
        rewrite Hm. destruct (frame _ Hwb el w) as [->|[msg ->]].
        - now left.
        - right. apply pending_custom_set_message. }
      destruct Hm2 as [(_ & [Hn'|Hall2] & _)
                      |(Hb2 & _ & pre' & prop' & checker' & post' & Ecs' & Hall' & Hf' & _ & Hm2)].
      + congruence.
      + exfalso. rewrite (Hall2 _ _ Hin) in Hf1. discriminate.
      + split; [congruence|].
        rewrite Ecs in Ecs'.
        destruct (first_failure_unique pre pre' post post'
                    (prop, checker) (prop', checker') el w1 Ecs'
                    Hall1 Hf1 Hall' Hf') as [_ E].
        injection E as <- <-. now rewrite Hm2. }
  rewrite (surjective_pairing (valid env el w1)). fold b2 w2.
  f_equal; [exact Hb|].
  apply world_eq; try congruence.
  - rewrite Hcl2, Hb.
    rewrite (tokens_insert el _ w w1 Hcl), Hcl, insert_insert_eq.
    f_equal. destruct b1.
    + apply valid_tokens_idempotent.
    + apply invalid_tokens_idempotent.
  - rewrite Har2, Hb, Har. apply insert_insert_eq.
Qed.

(** X2. A read of [valid] on a control touches nothing but that control's
    message, class list and [aria-invalid] flag: the cache, the instances
    and everything kept for other controls stay as they were. *)
Theorem valid_touches_only_its_control (el : Element) (w : World) :
  same_but_control el w (snd (valid env el w)).
Proof.
  destruct (valid_after el w) as (Hca & Hi & Hn & Hcl & Har & Hm).
  repeat (split; [assumption|]). intros id Hid.
  rewrite Hcl, Har, !lookup_insert_ne by congruence.
  split; [|tauto].
  destruct Hm as [(_ & _ & ->)
                 |(_ & _ & pre & prop & checker & post & Ecs & _ & _ & _ & ->)].
  - now apply lookup_delete_ne.
  - assert (well_behaved checker) as Hwb.
    { apply (checker_well_behaved env prop). rewrite Ecs.
      apply elem_of_app. right. left. }
    now apply (checker_keeps_page checker el w Hwb).
Qed.

(** X3. After a read of [valid] the control's [aria-invalid] flag is
    "false" when the read returned [true] and "true" otherwise, the
    "valid" class is in its class list exactly when the read returned
    [true], and every token other than the three class names is in the
    class list exactly when it was before. *)
Theorem valid_marks_presentation (el : Element) (w : World) :
  aria_invalid (snd (valid env el w)) !! identity el
  = Some (if fst (valid env el w) then "false" else "true") /\
  (validClass env el ∈ tokens el (snd (valid env el w))
   <-> fst (valid env el w) = true) /\
  forall token,
    token <> validClass env el ->
    token <> invalidClass env el ->
    token <> validatedClass env el ->
    (token ∈ tokens el (snd (valid env el w)) <-> token ∈ tokens el w).
Proof.
  destruct (valid_after el w) as (_ & _ & _ & Hcl & Har & _).
  rewrite Har, lookup_insert_eq.
  rewrite (tokens_insert el _ w _ Hcl).
  split; [reflexivity|]. split.
  - destruct (fst (valid env el w)).
    + rewrite elem_of_add_token. tauto.
    + rewrite elem_of_remove_token. split; [tauto|discriminate].
  - intros token H1 H2 H3. destruct (fst (valid env el w));
      rewrite ?elem_of_add_token, ?elem_of_remove_token, ?elem_of_add_token;
      tauto.
Qed.

(** X4. When the three class names are pairwise distinct, after a read
    of [valid] the "validated" class is in the control's class list and
    the "invalid" class is in it exactly when the read returned [false]. *)
Theorem valid_classes_exclusive (el : Element) (w : World) :
  invalidClass env el <> validClass env el ->
  validatedClass env el <> validClass env el ->
  validatedClass env el <> invalidClass env el ->
  validatedClass env el ∈ tokens el (snd (valid env el w)) /\
  (invalidClass env el ∈ tokens el (snd (valid env el w))
   <-> fst (valid env el w) = false).
Proof.
  intros H1 H2 H3.
  destruct (valid_after el w) as (_ & _ & _ & Hcl & _ & _).
  rewrite (tokens_insert el _ w _ Hcl).
  destruct (fst (valid env el w));
    rewrite ?elem_of_add_token, ?elem_of_remove_token, ?elem_of_add_token.
  - split; [tauto|]. split; [|discriminate]. intros [E|[E _]]; congruence.
  - split; tauto.
Qed.

(** X5. For a control without a wrapper the getter works with the default
    class names: after the read "hf-validated" is in the class list,
    "hf-valid" is in it exactly when the read returned [true], and
    "hf-invalid" exactly when it returned [false]. *)
Theorem valid_default_class_names (el : Element) (w : World) :
  get_wrapper env el = None ->
  "hf-validated" ∈ tokens el (snd (valid env el w)) /\
  ("hf-valid" ∈ tokens el (snd (valid env el w))
   <-> fst (valid env el w) = true) /\
  ("hf-invalid" ∈ tokens el (snd (valid env el w))
   <-> fst (valid env el w) = false).
Proof.
  intros Hw.
  destruct (valid_after el w) as (_ & _ & _ & Hcl & _ & _).
  rewrite (tokens_insert el _ w _ Hcl).
  unfold validClass, invalidClass, validatedClass, class_name.
  rewrite Hw. simpl.
  destruct (fst (valid env el w));
    rewrite ?elem_of_add_token, ?elem_of_remove_token, ?elem_of_add_token.
  - split; [right; split; [discriminate|now left]|].
    split; [tauto|]. split; [|discriminate].
    intros [E|[E _]]; [discriminate E | now destruct E].
  - split; [split; [discriminate|]; right; now left|].
    split; [|split; [reflexivity|]; intros _; split; [discriminate|now left]].
    split; [|discriminate]. intros [E _]. now destruct E.
Qed.

(** X6. A read of [valid] adds no class token but the three class names,
    and none of them is the empty string. *)
Theorem valid_adds_only_named_classes (el : Element) (w : World) (token : string) :
  token ∈ tokens el (snd (valid env el w)) ->
  token ∈ tokens el w \/
  (token <> "" /\
   token ∈ [validatedClass env el; validClass env el; invalidClass env el]).
Proof.
  assert (forall wrapper setting fallback,
             fallback <> "" -> class_name wrapper setting fallback <> "")
    as Hne.
  { intros wrapper setting fallback Hf. unfold class_name.
    destruct (wrapper ≫= setting) as [name|]; [|assumption].
    destruct (name =? "") eqn:E; [assumption|].
    now apply String.eqb_neq. }
  assert (validClass env el <> "" /\ invalidClass env el <> "" /\
          validatedClass env el <> "") as (Hv & Hi & Hd)
    by (repeat split; apply Hne; discriminate).
  destruct (valid_after el w) as (_ & _ & _ & Hcl & _ & _).
  rewrite (tokens_insert el _ w _ Hcl).
  destruct (fst (valid env el w));
    rewrite ?elem_of_add_token, ?elem_of_remove_token, ?elem_of_add_token;
    intros H;
    (assert (token ∈ tokens el w \/ token = validatedClass env el \/
             token = validClass env el \/ token = invalidClass env el)
       as [Hold|[E|[E|E]]] by tauto;
     [ now left
     | right; rewrite E; split; [assumption|rewrite !elem_of_cons; tauto].. ]).
Qed.

(** X7. When a read of [valid] returns [false], the control is a
    validation candidate, the read stopped at the first checker, in key
    order, that fails in the world before the read, and the message store
    afterwards is the one which that checker leaves when it is run alone. *)
Theorem valid_false_first_failure (el : Element) (w : World) :
  fst (valid env el w) = false ->
  is_validation_candidate env el = true /\
  exists pre prop checker post,
    validity_state_checkers env = (pre ++ (prop, checker) :: post)%list /\
    all_pass pre el w /\
    fst (checker el w) = true /\
    fst (valid_body env el w) = Some prop /\
    messages (snd (valid env el w)) = messages (snd (checker el w)).
Proof.
  intros Hb.
  destruct (valid_after el w) as (_ & _ & _ & _ & _ & [(Ht & _)|(_ & H)]).
  - congruence.
  - exact H.
Qed.

(** X8. When a read of [valid] returns [true], the message store
    afterwards is the one before with the control's entry deleted. *)
Theorem valid_true_deletes_entry (el : Element) (w : World) :
  fst (valid env el w) = true ->
  messages (snd (valid env el w)) = delete (identity el) (messages w).
Proof.
  intros Hb.
  destruct (valid_after el w)
    as (_ & _ & _ & _ & _ & [(_ & _ & H)|(Hf & _)]).
  - exact H.
  - congruence.
Qed.

Lemma badInput_eq el w :
  badInput env el w =
  (negb (test_bad_input env el),
   if negb (test_bad_input env el)
   then set_message el (translate env "Please match the requested type.") w
   else w).
Proof.
  unfold badInput, when, bind, ret. now destruct (test_bad_input env el).
Qed.

(** X9. On a validation candidate whose raw input is acceptable, a failing
    custom-error facet (a validator answering [false], or a pending custom
    message) makes the read of [valid] return [false] at [customError]
    whatever the later predicates say, and the message store is left
    exactly as it was, even when it holds no message for the control. *)
Theorem custom_error_stops_and_keeps_store (el : Element) (w : World) :
  is_validation_candidate env el = true ->
  test_bad_input env el = true ->
  fst (customError env el w) = true ->
  fst (valid env el w) = false /\
  fst (valid_body env el w) = Some "customError" /\
  messages (snd (valid env el w)) = messages w.
Proof.
  intros Hc Hbad Hcustom.
  assert (valid_body env el w =
          (Some "customError",
           mark_invalid el (invalidClass env el) (validClass env el)
             (snd (customError env el (mark_validated env el w))))) as E.
  { rewrite valid_body_unfold, Hc.
    change (validity_state_checkers env) with
      ([("badInput", badInput env)]
       ++ ("customError", customError env)
          :: drop 2 (validity_state_checkers env))%list.
    rewrite (valid_loop_fail [("badInput", badInput env)]).
    - reflexivity.
    - constructor; [|constructor]. simpl.
      apply structural_well_behaved, badInput_structural.
    - intros p c Hin. apply list_elem_of_singleton in Hin.
      injection Hin as -> ->. rewrite badInput_eq, Hbad. reflexivity.
    - rewrite customError_eq in *. exact Hcustom. }
  rewrite valid_eq, E. cbn [fst snd].
  split; [reflexivity|]. split; [reflexivity|].
  now rewrite messages_mark_invalid, customError_eq.
Qed.

(** X10. On a validation candidate whose raw input is rejected, the read
    of [valid] returns [false] at [badInput], before any validator or
    pending custom message is looked at, and the control's message is
    replaced by the plain bad-input message. *)
Theorem bad_input_overrides_custom_error (el : Element) (w : World) :
  is_validation_candidate env el = true ->
  test_bad_input env el = false ->
  fst (valid env el w) = false /\
  fst (valid_body env el w) = Some "badInput" /\
  messages (snd (valid env el w)) =
  <[identity el := {| text := translate env "Please match the requested type.";
                      is_custom := false |}]> (messages w).
Proof.
  intros Hc Hbad.
  assert (valid_body env el w =
          (Some "badInput",
           mark_invalid el (invalidClass env el) (validClass env el)
             (snd (badInput env el (mark_validated env el w))))) as E.
  { rewrite valid_body_unfold, Hc.
    change (validity_state_checkers env) with
      ([] ++ ("badInput", badInput env)
             :: drop 1 (validity_state_checkers env))%list.
    rewrite (valid_loop_fail []).
    - reflexivity.
    - constructor.
    - intros p c Hin. inversion Hin.
    - rewrite badInput_eq, Hbad. reflexivity. }
  rewrite valid_eq, E. cbn [fst snd].
  split; [reflexivity|]. split; [reflexivity|].
  rewrite messages_mark_invalid, badInput_eq, Hbad. cbn [negb snd].
  now rewrite messages_set_message.
Qed.

(** X11. Right after a read of [valid] on a validation candidate the
    facets agree with it: when it returned [true] each of the ten facets
    reads [false]; when it returned [false] the facet it stopped at reads
    [true], and reading that facet changes nothing. *)
Theorem facets_agree_after_valid (el : Element) (w : World) :
  is_validation_candidate env el = true ->
  (fst (valid env el w) = true ->
   all_pass (validity_state_checkers env) el (snd (valid env el w))) /\
  (fst (valid env el w) = false ->
   exists prop checker,
     (prop, checker) ∈ validity_state_checkers env /\
     fst (valid_body env el w) = Some prop /\
     checker el (snd (valid env el w)) = (true, snd (valid env el w))).
Proof.
  intros Hc.
  destruct (valid_after el w) as (_ & _ & _ & _ & _ & Hm).
  split; intros Hb.
  - destruct Hm as [(_ & [Hn|Hall] & Hm)|(Hf & _)]; [congruence| |congruence].
    intros prop checker Hin.
    pose proof (checker_well_behaved env _ _ Hin) as Hwb.
    apply (pass_persists _ Hwb el w); [now apply (Hall prop)|].
    right. now rewrite Hm, lookup_delete_eq.
  - destruct Hm as [(Ht & _)
                   |(_ & _ & pre & prop & checker & post & Ecs & _ & Hf & Hp & Hm)];
      [congruence|].
    assert ((prop, checker) ∈ validity_state_checkers env) as Hin
      by (rewrite Ecs; apply elem_of_app; right; left).
    pose proof (checker_well_behaved env _ _ Hin) as Hwb.
    exists prop, checker. split; [assumption|]. split; [assumption|].
    set (w1 := snd (valid env el w)) in *.
    destruct (fail_persists _ Hwb el w w1 Hf) as [Hf1 Hsame];
      [now rewrite Hm|].
    rewrite (surjective_pairing (checker el w1)), Hf1. f_equal.
    destruct (frame _ Hwb el w1) as [E|[msg E]]; [assumption|].
    rewrite E in *. rewrite messages_set_message in Hsame.
    apply world_eq; try reflexivity.
    rewrite messages_set_message. apply insert_id.
    rewrite <- Hm in Hsame. rewrite <- Hsame. apply lookup_insert_eq.
Qed.

(** X12. Reading one of the ten facets twice in a row gives the same
    answer twice, and the second read leaves the world as the first left
    it. *)
Theorem facet_again
    (prop : string) (checker : Element -> M bool) (el : Element) (w : World) :
  (prop, checker) ∈ validity_state_checkers env ->
  checker el (snd (checker el w)) = (fst (checker el w), snd (checker el w)).
Proof.
  intros Hin. destruct (checker_kind _ _ Hin) as [Hs| ->].
  - destruct (Hs el) as (invalid & msg & E). rewrite !E.
    destruct invalid; cbn [fst snd]; [|reflexivity].
    f_equal. apply world_eq; try reflexivity.
    rewrite !messages_set_message. apply insert_insert_eq.
  - now rewrite !customError_eq.
Qed.

(** X13. A failing structural facet, read on its own, replaces a pending
    custom message by its plain one: afterwards [customError] reports a
    violation only when a registered validator answers [false]. *)
Theorem failing_facet_replaces_custom_message
    (checker : Element -> M bool) (el : Element) (w : World) :
  structural checker ->
  fst (checker el w) = true ->
  pending_custom (messages (snd (checker el w)) !! identity el) = false /\
  fst (customError env el (snd (checker el w)))
  = negb (fst (call_validators (Registry_get env el) el)).
Proof.
  intros Hs Hf. destruct (Hs el) as (invalid & msg & E).
  rewrite E in *. cbn [fst snd] in *. subst invalid.
  rewrite customError_eq. cbn [fst].
  rewrite pending_custom_set_message. split; [reflexivity|].
  apply orb_false_r.
Qed.

(** X14. The message of a failing [stepMismatch] names both neighbouring
    valid values only when neither is [null]. With a [null] lower value it
    is the one-value message naming the upper value, also when that one is
    [null] too; with only the upper value [null] it is the one-value
    message naming the lower value. *)
Theorem stepMismatch_message (el : Element) (w : World) :
  test_step env el = false ->
  exists msg,
    stepMismatch env el w = (true, set_message el msg w) /\
    let (lower, upper) := get_next_valid env el in
    (lower = JsNull ->
     msg = sprintf env (translate env "StepMismatchOneValue") [upper]) /\
    (lower <> JsNull -> upper = JsNull ->
     msg = sprintf env (translate env "StepMismatchOneValue") [lower]) /\
    (lower <> JsNull -> upper <> JsNull ->
     msg = sprintf env (translate env "StepMismatch") [lower; upper]).
Proof.
  intros Hstep. unfold stepMismatch, when, bind, ret. rewrite Hstep.
  cbn [negb]. destruct (get_next_valid env el) as [lower upper].
  destruct lower, upper; cbn [is_null]; eexists; (split; [reflexivity|]);
    repeat split; intros; congruence.
Qed.

End Further.

(** ** More on the constructor *)

(** The worlds an invocation on a control can leave. *)
Lemma invoke_element_world how el w :
  (exists instance,
     cache w !! identity el = Some instance /\
     fst (invoke how (ArgElement el) w) = Normal instance /\
     (snd (invoke how (ArgElement el) w) = w \/
      snd (invoke how (ArgElement el) w) = snd (allocate w)))
  \/
  (cache w !! identity el = None /\
   fst (invoke how (ArgElement el) w) = Normal (next_instance w) /\
   snd (invoke how (ArgElement el) w) =
   snd ((set_element (next_instance w) el >> cache_set el (next_instance w))
          (snd (allocate w)))).
Proof.
  destruct (cache w !! identity el) as [instance|] eqn:Hc.
  - left. exists instance. split; [reflexivity|]. destruct how; cbn [invoke].
    + rewrite (new_ValidityState_cached _ _ _ Hc). auto.
    + rewrite (ValidityState_cached _ _ _ Hc). auto.
  - right. split; [reflexivity|].
    assert (invoke how (ArgElement el) w = new_ValidityState (ArgElement el) w)
      as -> by (destruct how; [reflexivity | now apply ValidityState_fresh]).
    rewrite (new_ValidityState_fresh _ _ Hc). auto.
Qed.

Lemma invoke_world how arg w :
  snd (invoke how arg w) = w \/
  snd (invoke how arg w) = snd (allocate w) \/
  exists el,
    arg = ArgElement el /\ cache w !! identity el = None /\
    snd (invoke how arg w) =
    snd ((set_element (next_instance w) el >> cache_set el (next_instance w))
           (snd (allocate w))).
Proof.
  destruct arg as [| v | r | el].
  1-3: destruct how; simpl; auto.
  destruct (invoke_element_world how el w)
    as [(instance & _ & _ & [H|H])|(Hc & _ & H)]; eauto 10.
Qed.

(** X15. Every invocation of the constructor, with or without [new] and
    on any argument, keeps the cache and the instances in agreement, and
    never unbinds what it finds: an instance bound to a control stays bound
    to it and a cache entry stays as it is. *)
Theorem invoke_preserves_coherent (how : Invocation) (arg : Argument) (w : World) :
  coherent w ->
  coherent (snd (invoke how arg w)) /\
  (forall reference el,
     state_of w reference el ->
     state_of (snd (invoke how arg w)) reference el) /\
  (forall id reference,
     cache w !! id = Some reference ->
     cache (snd (invoke how arg w)) !! id = Some reference).
Proof.
  intros Hw.
  destruct (invoke_world how arg w) as [->|[->|(el & -> & Hc & ->)]].
  - auto.
  - split; [now apply coherent_allocate|]. split; [|auto].
    intros r el Hs. unfold state_of in *. simpl.
    rewrite lookup_insert_ne; [assumption|].
    apply (allocated_below _ Hw) in Hs. lia.
  - split; [now apply coherent_bind_fresh|]. split.
    + intros r e Hs. unfold state_of in *. simpl.
      assert (r <> next_instance w)
        by (apply (allocated_below _ Hw) in Hs; lia).
      now rewrite !lookup_insert_ne by congruence.
    + intros id r Hid. simpl. rewrite lookup_insert_ne; [assumption|].
      congruence.
Qed.

(** X16. Controls of different identity never share a validity state:
    invoking the constructor on one and then on the other returns two
    different instances. *)
Theorem distinct_controls_distinct_instances
    (how1 how2 : Invocation) (el1 el2 : Element) (w : World) :
  coherent w ->
  identity el1 <> identity el2 ->
  exists instance1 instance2,
    fst (invoke how1 (ArgElement el1) w) = Normal instance1 /\
    fst (invoke how2 (ArgElement el2) (snd (invoke how1 (ArgElement el1) w)))
    = Normal instance2 /\
    instance1 <> instance2.
Proof.
  intros Hw Hid.
  destruct (invoke_element how1 el1 w Hw) as (r1 & E1 & C1 & Hw1).
  set (w1 := snd (invoke how1 (ArgElement el1) w)) in *.
  destruct (invoke_element how2 el2 w1 Hw1) as (r2 & E2 & C2 & Hw2).
  set (w2 := snd (invoke how2 (ArgElement el2) w1)) in *.
  exists r1, r2. split; [assumption|]. split; [assumption|].
  intros ->.
  assert (cache w2 !! identity el1 = Some r2) as C1'.
  { unfold w2.
    destruct (invoke_world how2 (ArgElement el2) w1)
      as [->|[->|(el & E & _ & ->)]]; try assumption.
    injection E as <-. simpl. now rewrite lookup_insert_ne by congruence. }
  destruct (cached_is_bound _ Hw2 _ _ C1') as (e1 & Hs1 & I1).
  destruct (cached_is_bound _ Hw2 _ _ C2) as (e2 & Hs2 & I2).
  unfold state_of in *. rewrite Hs1 in Hs2. injection Hs2 as ->. congruence.
Qed.

(** X17. Once the constructor has been invoked on a control, calling it
    again without [new], as the installed accessor does, returns the same
    instance and changes nothing at all; calling it again with [new]
    returns the same instance too and only spends one object reference. *)
Theorem accessor_reread_is_pure (how : Invocation) (el : Element) (w : World) :
  exists instance,
    fst (invoke how (ArgElement el) w) = Normal instance /\
    invoke WithoutNew (ArgElement el) (snd (invoke how (ArgElement el) w))
    = (Normal instance, snd (invoke how (ArgElement el) w)) /\
    invoke WithNew (ArgElement el) (snd (invoke how (ArgElement el) w))
    = (Normal instance, snd (allocate (snd (invoke how (ArgElement el) w)))).
Proof.
  assert (exists instance,
             fst (invoke how (ArgElement el) w) = Normal instance /\
             cache (snd (invoke how (ArgElement el) w)) !! identity el
             = Some instance) as (instance & E & C).
  { destruct (invoke_element_world how el w)
      as [(instance & Hc & E & [->| ->])|(Hc & E & ->)].
    - eauto.
    - eauto.
    - exists (next_instance w). split; [assumption|]. simpl.
      apply lookup_insert_eq. }
  exists instance. split; [assumption|]. cbn [invoke]. split.
  - now apply ValidityState_cached.
  - now apply new_ValidityState_cached.
Qed.

(** X18. Invoked on a control that has no cache entry, the constructor
    returns a fresh reference, binds that instance to exactly this control
    and enters it in the cache under the control's identity, leaving all
    other cache entries alone. *)
Theorem fresh_control_gets_new_instance
    (how : Invocation) (el : Element) (w : World) :
  cache w !! identity el = None ->
  fst (invoke how (ArgElement el) w) = Normal (next_instance w) /\
  state_of (snd (invoke how (ArgElement el) w)) (next_instance w) el /\
  cache (snd (invoke how (ArgElement el) w))
  = <[identity el := next_instance w]> (cache w) /\
  next_instance (snd (invoke how (ArgElement el) w)) = S (next_instance w).
Proof.
  intros Hc.
  destruct (invoke_element_world how el w)
    as [(instance & Hc' & _)|(_ & E & ->)]; [congruence|].
  split; [assumption|]. unfold state_of. simpl.
  split; [apply lookup_insert_eq|]. auto.
Qed.

(** X19. The constructor never touches the message store, the class lists
    or the [aria-invalid] flags, whatever it is invoked on. *)
Theorem invoke_keeps_page (how : Invocation) (arg : Argument) (w : World) :
  same_page w (snd (invoke how arg w)).
Proof.
  destruct (invoke_world how arg w) as [->|[->|(el & _ & _ & ->)]];
    repeat split.
Qed.

(** ** The further properties on concrete controls *)

Lemma valid_classes_exclusive_witness :
  invalidClass sample long_text_input <> validClass sample long_text_input /\
  validatedClass sample long_text_input <> validClass sample long_text_input /\
  validatedClass sample long_text_input <> invalidClass sample long_text_input /\
  validatedClass sample long_text_input
    ∈ tokens long_text_input (snd (valid sample long_text_input empty_world)) /\
  (invalidClass sample long_text_input
     ∈ tokens long_text_input (snd (valid sample long_text_input empty_world))
   <-> fst (valid sample long_text_input empty_world) = false).
Proof.
  assert (invalidClass sample long_text_input
          <> validClass sample long_text_input) as H1 by discriminate.
  assert (validatedClass sample long_text_input
          <> validClass sample long_text_input) as H2 by discriminate.
  assert (validatedClass sample long_text_input
          <> invalidClass sample long_text_input) as H3 by discriminate.
  split; [exact H1|]. split; [exact H2|]. split; [exact H3|].
  exact (valid_classes_exclusive sample long_text_input empty_world H1 H2 H3).
Defined.

Lemma valid_default_class_names_witness :
  get_wrapper sample long_text_input = None /\
  "hf-validated"
    ∈ tokens long_text_input (snd (valid sample long_text_input empty_world)) /\
  ("hf-valid"
     ∈ tokens long_text_input (snd (valid sample long_text_input empty_world))
   <-> fst (valid sample long_text_input empty_world) = true) /\
  ("hf-invalid"
     ∈ tokens long_text_input (snd (valid sample long_text_input empty_world))
   <-> fst (valid sample long_text_input empty_world) = false).
Proof.
  split; [reflexivity|].
  exact (valid_default_class_names sample long_text_input empty_world eq_refl).
Defined.

Lemma valid_adds_only_named_classes_witness :
  "hf-invalid"
    ∈ tokens long_text_input (snd (valid sample long_text_input empty_world)) /\
  ("hf-invalid" ∈ tokens long_text_input empty_world \/
   ("hf-invalid" <> "" /\
    "hf-invalid" ∈ [validatedClass sample long_text_input;
                    validClass sample long_text_input;
                    invalidClass sample long_text_input])).
Proof.
  assert ("hf-invalid"
            ∈ tokens long_text_input
                (snd (valid sample long_text_input empty_world))) as Hin.
  { refine (bool_decide_unpack _ _). vm_compute. exact I. }
  split; [exact Hin|].
  exact (valid_adds_only_named_classes sample long_text_input empty_world
           "hf-invalid" Hin).
Defined.

Lemma valid_false_first_failure_witness :
  fst (valid sample long_text_input empty_world) = false /\
  is_validation_candidate sample long_text_input = true /\
  exists pre prop checker post,
    validity_state_checkers sample = (pre ++ (prop, checker) :: post)%list /\
    all_pass pre long_text_input empty_world /\
    fst (checker long_text_input empty_world) = true /\
    fst (valid_body sample long_text_input empty_world) = Some prop /\
    messages (snd (valid sample long_text_input empty_world))
    = messages (snd (checker long_text_input empty_world)).
Proof.
  assert (fst (valid sample long_text_input empty_world) = false) as H
    by (vm_compute; reflexivity).
  split; [exact H|].
  exact (valid_false_first_failure sample long_text_input empty_world H).
Defined.

Lemma valid_true_deletes_entry_witness :
  fst (valid sample disabled_input stale_world) = true /\
  messages stale_world !! identity disabled_input <> None /\
  messages (snd (valid sample disabled_input stale_world))
  = delete (identity disabled_input) (messages stale_world).
Proof.
  assert (fst (valid sample disabled_input stale_world) = true) as H
    by (vm_compute; reflexivity).
  split; [exact H|]. split; [vm_compute; discriminate|].
  exact (valid_true_deletes_entry sample disabled_input stale_world H).
Defined.

Lemma custom_error_stops_and_keeps_store_witness :
  is_validation_candidate rejecting_sample plain_input = true /\
  test_bad_input rejecting_sample plain_input = true /\
  fst (customError rejecting_sample plain_input empty_world) = true /\
  fst (valid rejecting_sample plain_input empty_world) = false /\
  fst (valid_body rejecting_sample plain_input empty_world) = Some "customError" /\
  messages (snd (valid rejecting_sample plain_input empty_world)) = messages empty_world.
Proof.
  assert (is_validation_candidate rejecting_sample plain_input = true) as H1
    by (vm_compute; reflexivity).
  assert (test_bad_input rejecting_sample plain_input = true) as H2 by reflexivity.
  assert (fst (customError rejecting_sample plain_input empty_world) = true) as H3
    by (vm_compute; reflexivity).
  split; [exact H1|]. split; [exact H2|]. split; [exact H3|].
  exact (custom_error_stops_and_keeps_store rejecting_sample plain_input empty_world
           H1 H2 H3).
Defined.

Lemma bad_input_overrides_custom_error_witness :
  is_validation_candidate bad_input_sample plain_input = true /\
  test_bad_input bad_input_sample plain_input = false /\
  pending_custom (messages custom_world !! identity plain_input) = true /\
  fst (valid bad_input_sample plain_input custom_world) = false /\
  fst (valid_body bad_input_sample plain_input custom_world) = Some "badInput" /\
  messages (snd (valid bad_input_sample plain_input custom_world)) =
  <[identity plain_input :=
      {| text := translate bad_input_sample "Please match the requested type.";
         is_custom := false |}]> (messages custom_world).
Proof.
  assert (is_validation_candidate bad_input_sample plain_input = true) as H1
    by (vm_compute; reflexivity).
  assert (test_bad_input bad_input_sample plain_input = false) as H2 by reflexivity.
  split; [exact H1|]. split; [exact H2|]. split; [vm_compute; reflexivity|].
  exact (bad_input_overrides_custom_error bad_input_sample plain_input custom_world H1 H2).
Defined.

Lemma facets_agree_after_valid_witness :
  is_validation_candidate sample long_text_input = true /\
  (fst (valid sample long_text_input empty_world) = true ->
   all_pass (validity_state_checkers sample) long_text_input
     (snd (valid sample long_text_input empty_world))) /\
  (fst (valid sample long_text_input empty_world) = false ->
   exists prop checker,
     (prop, checker) ∈ validity_state_checkers sample /\
     fst (valid_body sample long_text_input empty_world) = Some prop /\
     checker long_text_input (snd (valid sample long_text_input empty_world))
     = (true, snd (valid sample long_text_input empty_world))).
Proof.
  assert (is_validation_candidate sample long_text_input = true) as H
    by (vm_compute; reflexivity).
  split; [exact H|].
  exact (facets_agree_after_valid sample long_text_input empty_world H).
Defined.

Lemma facet_again_witness :
  ("tooLong", tooLong sample) ∈ validity_state_checkers sample /\
  tooLong sample long_text_input
    (snd (tooLong sample long_text_input empty_world))
  = (fst (tooLong sample long_text_input empty_world),
     snd (tooLong sample long_text_input empty_world)).
Proof.
  assert (("tooLong", tooLong sample) ∈ validity_state_checkers sample) as Hin.
  { unfold validity_state_checkers.
    do 6 apply list_elem_of_further. apply list_elem_of_here. }
  split; [exact Hin|].
  exact (facet_again sample "tooLong" (tooLong sample) long_text_input
           empty_world Hin).
Defined.

Lemma failing_facet_replaces_custom_message_witness :
  structural (badInput bad_input_only_sample) /\
  fst (badInput bad_input_only_sample plain_input custom_world) = true /\
  fst (customError bad_input_only_sample plain_input custom_world) = true /\
  pending_custom
    (messages (snd (badInput bad_input_only_sample plain_input custom_world))
       !! identity plain_input) = false /\
  fst (customError bad_input_only_sample plain_input (snd (badInput bad_input_only_sample plain_input custom_world)))
  = negb (fst (call_validators (Registry_get bad_input_only_sample plain_input) plain_input)).
Proof.
  assert (fst (badInput bad_input_only_sample plain_input custom_world) = true) as Hf
    by (vm_compute; reflexivity).
  split; [exact (badInput_structural bad_input_only_sample)|]. split; [exact Hf|].
  split; [vm_compute; reflexivity|].
  exact (failing_facet_replaces_custom_message bad_input_only_sample (badInput bad_input_only_sample) plain_input
           custom_world (badInput_structural bad_input_only_sample) Hf).
Defined.

Lemma stepMismatch_message_witness :
  test_step step_sample plain_input = false /\
  exists msg,
    stepMismatch step_sample plain_input empty_world
    = (true, set_message plain_input msg empty_world) /\
    let (lower, upper) := get_next_valid step_sample plain_input in
    (lower = JsNull ->
     msg = sprintf step_sample (translate step_sample "StepMismatchOneValue") [upper]) /\
    (lower <> JsNull -> upper = JsNull ->
     msg = sprintf step_sample (translate step_sample "StepMismatchOneValue") [lower]) /\
    (lower <> JsNull -> upper <> JsNull ->
     msg = sprintf step_sample (translate step_sample "StepMismatch") [lower; upper]).
Proof.
  split; [reflexivity|].
  exact (stepMismatch_message step_sample plain_input empty_world eq_refl).
Defined.

Lemma invoke_preserves_coherent_witness :
  coherent empty_world /\
  coherent (snd (invoke WithNew (ArgElement plain_input) empty_world)).
Proof.
  split; [exact coherent_empty|].
  exact (proj1 (invoke_preserves_coherent WithNew (ArgElement plain_input)
                  empty_world coherent_empty)).
Defined.

Lemma distinct_controls_distinct_instances_witness :
  coherent empty_world /\
  identity number_input <> identity plain_input /\
  exists instance1 instance2,
    fst (invoke WithoutNew (ArgElement number_input) empty_world)
    = Normal instance1 /\
    fst (invoke WithoutNew (ArgElement plain_input)
           (snd (invoke WithoutNew (ArgElement number_input) empty_world)))
    = Normal instance2 /\
    instance1 <> instance2.
Proof.
  assert (identity number_input <> identity plain_input) as Hid
    by discriminate.
  split; [exact coherent_empty|]. split; [exact Hid|].
  exact (distinct_controls_distinct_instances WithoutNew WithoutNew
           number_input plain_input empty_world coherent_empty Hid).
Defined.

Lemma fresh_control_gets_new_instance_witness :
  cache empty_world !! identity plain_input = None /\
  fst (invoke WithoutNew (ArgElement plain_input) empty_world) = Normal 0 /\
  state_of (snd (invoke WithoutNew (ArgElement plain_input) empty_world))
    0 plain_input.
Proof.
  assert (cache empty_world !! identity plain_input = None) as Hc
    by apply lookup_empty.
  split; [exact Hc|].
  destruct (fresh_control_gets_new_instance WithoutNew plain_input
              empty_world Hc) as (H1 & H2 & _).
  split; [exact H1 | exact H2].
Defined.
